(** * Mail list: selection state machine, read-state hotkeys, hover prefetch

    A shallow embedding of [apps/mail/components/mail/mail-list.tsx]:
    the [MailList] component's selection handlers and hotkey callbacks, the
    [Thread] row's click and hover handlers, and the scroll handler.

    React state and the [useMail] atom are modelled by explicit state
    passing over a [World]; calls into collaborators that live outside the
    component ([toast], [markAsRead], [mutate], [loadMore], [preloadThread],
    [console]) are recorded in an effect trace, in program order. *)

From stdpp Require Import list strings pretty.
From Stdlib Require Import ZArith QArith Lia Ascii.

Local Open Scope string_scope.
Local Open Scope list_scope.
Local Open Scope Z_scope.

(** ** JavaScript array and operator helpers *)

Module Js.

(** [Array.prototype.indexOf] on an array of strings: the first index
    holding a strictly equal element, [-1] when there is none. *)
Fixpoint indexOf (l : list string) (x : string) : Z :=
  match l with
  | [] => -1
  | y :: l' =>
      if String.eqb y x then 0
      else let r := indexOf l' x in
           if r =? -1 then -1 else r + 1
  end.

(** [Array.prototype.includes]. *)
Fixpoint includes (l : list string) (x : string) : bool :=
  match l with
  | [] => false
  | y :: l' => String.eqb y x || includes l' x
  end.

(** [Array.prototype.slice(start, end)] on integer arguments: a negative
    argument counts from the end, and both are clamped to the length. *)
Definition relIndex (len i : Z) : Z :=
  if i <? 0 then Z.max (len + i) 0 else Z.min i len.

Definition slice {A} (l : list A) (start stop : Z) : list A :=
  let len := Z.of_nat (length l) in
  let k := relIndex len start in
  let final := relIndex len stop in
  take (Z.to_nat (final - k)) (drop (Z.to_nat k) l).

(** [slice(start)]: the end defaults to the length. *)
Definition sliceFrom {A} (l : list A) (start : Z) : list A :=
  slice l start (Z.of_nat (length l)).

(** [arr[arr.length - 1]]: [undefined] (here [None]) on the empty array. *)
Definition lastEntry {A} (l : list A) : option A :=
  match length l with
  | O => None
  | S n => l !! n
  end.

(** [a ?? b]. *)
Definition nullish {A} (a : option A) (b : A) : A :=
  match a with
  | Some v => v
  | None => b
  end.

End Js.

(** ** Data model *)

(** The fields of [InitialThread] (declared in [@/types]) that the handlers
    read. [threadId] is optional: [None] stands for [undefined]. *)
Record InitialThread := mkThread {
  id : string;
  threadId : option string;
  unread : bool
}.

(** The value held by the [useMail] atom. [selected] is [string | null]. *)
Record MailState := mkMail {
  selected : option string;
  bulkSelected : list string
}.

Inductive MailSelectMode := mass | range | single | selectAllBelow.

Inductive ToastKind := success | error | info.

(** The outcome of an awaited server action: it resolves with a response
    carrying a [success] flag, or it rejects. *)
Inductive Outcome :=
| Resolved (res_success : bool)
| Rejected.

(** Calls leaving the component, in the order they are made. *)
Inductive Effect :=
| Toast (k : ToastKind) (text : string)
| MarkAsRead (ids : list string)
| MarkAsUnread (ids : list string)
| Mutate
| LoadMore
| PreventDefault
| ConsoleLog (text : string)
| ConsoleError.

Record World := mkWorld {
  mailAtom : MailState;
  massSelectMode : bool;
  rangeSelectMode : bool;
  selectAllBelowMode : bool;
  trace : list Effect
}.

(** ** A state monad over [World] *)

Definition M (A : Type) : Type := World -> A * World.

Definition ret {A} (a : A) : M A := fun w => (a, w).
Definition bind {A B} (m : M A) (k : A -> M B) : M B :=
  fun w => let (a, w') := m w in k a w'.
Definition exec {A} (m : M A) (w : World) : World := snd (m w).

Declare Scope m_scope.
Delimit Scope m_scope with m.
Notation "m1 ;; m2" := (bind m1 (fun _ => m2))
  (at level 100, m2 at level 200, right associativity) : m_scope.
Local Open Scope m_scope.

Definition skip : M unit := ret tt.

Definition emit (e : Effect) : M unit :=
  fun w => (tt, mkWorld (mailAtom w) (massSelectMode w) (rangeSelectMode w)
                        (selectAllBelowMode w) (trace w ++ [e])).

(** [setMail(value)] and [setMail(prev => ...)]. *)
Definition setMailWith (f : MailState -> MailState) : M unit :=
  fun w => (tt, mkWorld (f (mailAtom w)) (massSelectMode w) (rangeSelectMode w)
                        (selectAllBelowMode w) (trace w)).
Definition setMail (v : MailState) : M unit := setMailWith (fun _ => v).

Definition setMassSelectMode (b : bool) : M unit :=
  fun w => (tt, mkWorld (mailAtom w) b (rangeSelectMode w)
                        (selectAllBelowMode w) (trace w)).
Definition setRangeSelectMode (b : bool) : M unit :=
  fun w => (tt, mkWorld (mailAtom w) (massSelectMode w) b
                        (selectAllBelowMode w) (trace w)).
Definition setSelectAllBelowMode (b : bool) : M unit :=
  fun w => (tt, mkWorld (mailAtom w) (massSelectMode w) (rangeSelectMode w)
                        b (trace w)).

(** ** The [MailList] component *)

Module MailList.

(** [const selectMode = massSelectMode ? "mass" : rangeSelectMode ? ...]. *)
Definition selectMode (w : World) : MailSelectMode :=
  if massSelectMode w then mass
  else if rangeSelectMode w then range
  else if selectAllBelowMode w then selectAllBelow
  else single.

(** [mail.selected === message.threadId]: [null] and [undefined] are not
    strictly equal, so an absent side never matches. *)
Definition selectedIsThreadId (mail : MailState) (message : InitialThread) : bool :=
  match selected mail, threadId message with
  | Some s, Some t => String.eqb s t
  | _, _ => false
  end.

(** [mail.selected === message.id]. *)
Definition selectedIsId (mail : MailState) (message : InitialThread) : bool :=
  match selected mail with
  | Some s => String.eqb s (id message)
  | None => false
  end.

(** [handleMailClick], with [mode], [items] and [mail] the values the
    handler closes over. *)
Definition handleMailClick (mode : MailSelectMode) (items : list InitialThread)
    (mail : MailState) (message : InitialThread) : M unit :=
  match mode with
  | mass =>
      let updatedBulkSelected :=
        if Js.includes (bulkSelected mail) (id message)
        then List.filter (fun i => negb (String.eqb i (id message))) (bulkSelected mail)
        else bulkSelected mail ++ [id message] in
      setMail (mkMail (selected mail) updatedBulkSelected)
  | range =>
      let lastSelectedItem :=
        Js.nullish (Js.lastEntry (bulkSelected mail))
                   (Js.nullish (selected mail) (id message)) in
      let mailsIndex := map id items in
      let startIdx := Js.indexOf mailsIndex lastSelectedItem in
      let endIdx := Js.indexOf mailsIndex (id message) in
      if negb (startIdx =? -1) && negb (endIdx =? -1) then
        let selectedRange :=
          Js.slice mailsIndex (Z.min startIdx endIdx) (Z.max startIdx endIdx + 1) in
        setMail (mkMail (selected mail) selectedRange)
      else skip
  | selectAllBelow =>
      let mailsIndex := map id items in
      let startIdx := Js.indexOf mailsIndex (id message) in
      if negb (startIdx =? -1) then
        let selectedRange := Js.sliceFrom mailsIndex startIdx in
        setMail (mkMail (selected mail) selectedRange)
      else skip
  | single =>
      if selectedIsThreadId mail message || selectedIsId mail message then
        setMail (mkMail None [])
      else
        setMail (mkMail (Some (Js.nullish (threadId message) (id message))) [])
  end.

(** [selectAll], closing over [items] and [mail.bulkSelected]. *)
Definition selectAll (items : list InitialThread) (mail : MailState) : M unit :=
  if (0 <? length (bulkSelected mail))%nat then
    setMailWith (fun prev => mkMail (selected prev) []) ;;
    emit (Toast success "Deselected all emails")
  else if (0 <? length items)%nat then
    let allIds := map id items in
    setMailWith (fun prev => mkMail (selected prev) allIds) ;;
    emit (Toast success ("Selected " +:+ pretty (length allIds) +:+ " emails"))
  else
    emit (Toast info "No emails to select").

Definition resetSelectMode : M unit :=
  setMassSelectMode false ;;
  setRangeSelectMode false ;;
  setSelectAllBelowMode false.

(** The mode hotkeys: [useHotKey("Control", ...)] and so on. *)
Definition hotkey_Control : M unit := resetSelectMode ;; setMassSelectMode true.
Definition hotkey_Meta : M unit := resetSelectMode ;; setMassSelectMode true.
Definition hotkey_Shift : M unit := resetSelectMode ;; setRangeSelectMode true.
Definition hotkey_Alt_Shift : M unit := resetSelectMode ;; setSelectAllBelowMode true.

(** The read-state hotkeys are [async]: each runs up to its [await]
    ([_start], which issues the request for the [mail.bulkSelected] it
    closed over) and continues when the request settles ([_resume]). A
    rejected request ends the callback at the [await]. *)
Definition hotkey_Meta_Shift_u_start (mail : MailState) : M unit :=
  resetSelectMode ;; emit (MarkAsUnread (bulkSelected mail)).
Definition hotkey_Meta_Shift_u_resume (res : Outcome) : M unit :=
  match res with
  | Resolved true =>
      emit (Toast success "Marked as unread") ;;
      setMailWith (fun prev => mkMail (selected prev) [])
  | Resolved false => emit (Toast error "Failed to mark as unread")
  | Rejected => skip
  end.

Definition hotkey_Control_Shift_u_start (mail : MailState) : M unit :=
  resetSelectMode ;; emit (MarkAsUnread (bulkSelected mail)).
Definition hotkey_Control_Shift_u_resume (res : Outcome) : M unit :=
  match res with
  | Resolved true =>
      emit (Toast success "Marked as unread") ;;
      setMailWith (fun prev => mkMail (selected prev) [])
  | Resolved false => emit (Toast error "Failed to mark as unread")
  | Rejected => skip
  end.

Definition hotkey_Meta_Shift_i_start (mail : MailState) : M unit :=
  resetSelectMode ;; emit (MarkAsRead (bulkSelected mail)).
Definition hotkey_Meta_Shift_i_resume (res : Outcome) : M unit :=
  match res with
  | Resolved true =>
      emit (Toast success "Marked as read") ;;
      setMailWith (fun prev => mkMail (selected prev) [])
  | Resolved false => emit (Toast error "Failed to mark as read")
  | Rejected => skip
  end.

Definition hotkey_Control_Shift_i_start (mail : MailState) : M unit :=
  resetSelectMode ;; emit (MarkAsRead (bulkSelected mail)).
Definition hotkey_Control_Shift_i_resume (res : Outcome) : M unit :=
  match res with
  | Resolved true =>
      emit (Toast success "Marked as read") ;;
      setMailWith (fun prev => mkMail (selected prev) [])
  | Resolved false => emit (Toast error "Failed to mark as read")
  | Rejected => skip
  end.

(** [Meta+a], [Control+a], [Meta+n] and [Control+n] share one body. *)
Definition hotkey_selectAll (items : list InitialThread) (mail : MailState) : M unit :=
  emit PreventDefault ;; resetSelectMode ;; selectAll items mail.

(** The window listeners installed by the mount effect. *)
Definition handleKeyUp (key : string) : M unit :=
  (if String.eqb key "Control" || String.eqb key "Meta"
   then setMassSelectMode false else skip) ;;
  (if String.eqb key "Shift" then setRangeSelectMode false else skip) ;;
  (if String.eqb key "Alt" then setSelectAllBelowMode false else skip).

Definition handleBlur : M unit :=
  setMassSelectMode false ;;
  setRangeSelectMode false ;;
  setSelectAllBelowMode false.

(** Scrolling. [scrollTop] may be fractional, so the geometry is rational. *)
Record ScrollTarget := mkTarget {
  scrollTop : Q;
  scrollHeight : Q;
  clientHeight : Q
}.

Definition Qltb (x y : Q) : bool := negb (Qle_bool y x).

(** [const itemHeight = isCompact ? 64 : 96], [isCompact] optional. *)
Definition itemHeight (isCompact : option bool) : Q :=
  match isCompact with
  | Some true => 64%Q
  | _ => 96%Q
  end.

Definition handleScroll (isLoading isValidating : bool) (isCompact : option bool)
    (target : ScrollTarget) : M unit :=
  if isLoading || isValidating then skip
  else
    let scrolledToBottom :=
      Qltb (scrollHeight target - (scrollTop target + clientHeight target))%Q
           (itemHeight isCompact * 2)%Q in
    if scrolledToBottom then
      emit (ConsoleLog "Loading more items...") ;; emit LoadMore
    else skip.

(** A click as the user makes it: the handler closes over the current
    mode, the loaded sequence and the current atom value. *)
Definition click (items : list InitialThread) (message : InitialThread) : M unit :=
  fun w => handleMailClick (selectMode w) items (mailAtom w) message w.

End MailList.

(** ** The [Thread] row component *)

Module Thread.

(** [useSession()] data: [session.user.id] and [session.connectionId]. *)
Record Session := mkSession {
  userId : string;
  connectionId : option string
}.

(** [const isMailSelected = message.id === mail.selected]. *)
Definition isMailSelected (message : InitialThread) (mail : MailState) : bool :=
  match selected mail with
  | Some s => String.eqb (id message) s
  | None => false
  end.

(** A non-empty string is truthy, so [!selectMode] is false for every mode. *)
Definition isSingle (mode : MailSelectMode) : bool :=
  match mode with
  | single => true
  | _ => false
  end.

(** [handleMailClick] up to its [await]: the selection callback runs
    first, then the request is issued when the guard holds. The result
    tells whether the handler is now waiting on the request. *)
Definition handleMailClick_start (selectMode : MailSelectMode)
    (onSelect : InitialThread -> M unit) (mail : MailState)
    (message : InitialThread) : M bool :=
  onSelect message ;;
  if isSingle selectMode && negb (isMailSelected message mail) && unread message
  then emit (MarkAsRead [id message]) ;; ret true
  else ret false.

(** [markAsRead(...).then(() => mutate()).catch(console.error)]: a
    resolved request revalidates whatever its response says; a rejected
    request, or a rejected revalidation, is logged. *)
Definition handleMailClick_resume (res : Outcome) (mutateOk : bool) : M unit :=
  match res with
  | Resolved _ => emit Mutate ;; (if mutateOk then skip else emit ConsoleError)
  | Rejected => emit ConsoleError
  end.

(** The whole handler, for one settled request. *)
Definition handleMailClick (selectMode : MailSelectMode)
    (onSelect : InitialThread -> M unit) (mail : MailState)
    (message : InitialThread) (res : Outcome) (mutateOk : bool) : M unit :=
  bind (handleMailClick_start selectMode onSelect mail message)
       (fun waiting => if waiting then handleMailClick_resume res mutateOk else skip).

(** *** Hover prefetch *)

Definition HOVER_DELAY : nat := 1000.

(** One [preloadThread(userId, messageId, connectionId)] call. *)
Record Preload := mkPreload {
  pUser : string;
  pMessageId : string;
  pConnection : option string
}.

(** A pending [setTimeout]: its handle, when it is due, and the
    [session] and [message] its callback closed over. *)
Record Timer := mkTimer {
  handle : nat;
  due : nat;
  tSession : Session;
  tMessage : InitialThread
}.

(** The refs of one row, the clock, and the timers it has pending. *)
Record Row := mkRow {
  now : nat;
  isHovering : bool;
  hasPrefetched : bool;
  hoverTimeoutRef : option nat;
  nextHandle : nat;
  timers : list Timer;
  preloads : list Preload
}.

(** A mounted row: the mount effect has cleared [hasPrefetched]. Timer
    handles are positive, hence truthy. *)
Definition mount : Row := mkRow 0 false false None 1 [] [].

Definition clearTimeout (h : nat) (ts : list Timer) : list Timer :=
  List.filter (fun t => negb (handle t =? h)%nat) ts.

(** [if (hoverTimeoutRef.current) clearTimeout(hoverTimeoutRef.current)]. *)
Definition clearHoverTimeout (r : Row) : list Timer :=
  match hoverTimeoutRef r with
  | Some h => clearTimeout h (timers r)
  | None => timers r
  end.

(** [session?.user.id] is truthy: a session with a non-empty user id. *)
Definition sessionUser (session : option Session) : option Session :=
  match session with
  | Some s => if String.eqb (userId s) "" then None else Some s
  | None => None
  end.

Definition handleMouseEnter (selectMode : MailSelectMode)
    (session : option Session) (message : InitialThread) (r : Row) : Row :=
  match isSingle selectMode, sessionUser session, hasPrefetched r with
  | true, Some s, false =>
      mkRow (now r) true (hasPrefetched r) (Some (nextHandle r))
            (S (nextHandle r))
            (clearHoverTimeout r ++
               [mkTimer (nextHandle r) (now r + HOVER_DELAY) s message])
            (preloads r)
  | _, _, _ =>
      mkRow (now r) true (hasPrefetched r) (hoverTimeoutRef r)
            (nextHandle r) (timers r) (preloads r)
  end.

Definition handleMouseLeave (r : Row) : Row :=
  mkRow (now r) false (hasPrefetched r) (hoverTimeoutRef r)
        (nextHandle r) (clearHoverTimeout r) (preloads r).

(** The timer callback. *)
Definition onTimeout (t : Timer) (r : Row) : Row :=
  if isHovering r then
    let messageId := Js.nullish (threadId (tMessage t)) (id (tMessage t)) in
    mkRow (now r) (isHovering r) true (hoverTimeoutRef r) (nextHandle r)
          (timers r)
          (preloads r ++
             [mkPreload (userId (tSession t)) messageId (connectionId (tSession t))])
  else r.

(** Time passes: the clock moves on by [d] and every timer that has come
    due runs, oldest first. *)
Definition isDue (t' : nat) (t : Timer) : bool := (due t <=? t')%nat.

Definition advance (d : nat) (r : Row) : Row :=
  let t' := (now r + d)%nat in
  let ready := List.filter (isDue t') (timers r) in
  let waiting := List.filter (fun t => negb (isDue t' t)) (timers r) in
  fold_left (fun acc t => onTimeout t acc) ready
    (mkRow t' (isHovering r) (hasPrefetched r) (hoverTimeoutRef r)
           (nextHandle r) waiting (preloads r)).

(** [useEffect(() => { hasPrefetched.current = false }, [message.id])]. *)
Definition messageIdChanged (r : Row) : Row :=
  mkRow (now r) (isHovering r) false (hoverTimeoutRef r) (nextHandle r)
        (timers r) (preloads r).

(** The unmount cleanup. *)
Definition unmount (r : Row) : Row :=
  mkRow (now r) (isHovering r) (hasPrefetched r) (hoverTimeoutRef r)
        (nextHandle r) (clearHoverTimeout r) (preloads r).

Inductive Event :=
| MouseEnter (selectMode : MailSelectMode) (session : option Session)
             (message : InitialThread)
| MouseLeave
| Advance (d : nat)
| MessageIdChanged
| Unmount.

Definition step (r : Row) (e : Event) : Row :=
  match e with
  | MouseEnter m s msg => handleMouseEnter m s msg r
  | MouseLeave => handleMouseLeave r
  | Advance d => advance d r
  | MessageIdChanged => messageIdChanged r
  | Unmount => unmount r
  end.

Definition run (es : list Event) (r : Row) : Row := fold_left step es r.

Inductive reachable : Row -> Prop :=
| reach_mount : reachable mount
| reach_step r e : reachable r -> reachable (step r e).

Definition keepsId (e : Event) : bool :=
  match e with
  | MessageIdChanged => false
  | _ => true
  end.

End Thread.

(** ** The typing animation of the row tooltip *)

Module StreamingText.

(** The state of the effect: its local [currentIndex], the two pieces of
    component state, and whether the interval is still installed. *)
Record State := mkState {
  currentIndex : nat;
  displayText : string;
  isComplete : bool;
  ticking : bool
}.

(** The effect body up to [setInterval]. *)
Definition start : State := mkState 0 "" false true.

(** One run of the interval callback; a cleared interval runs no more. *)
Definition tick (text : string) (st : State) : State :=
  if ticking st then
    if (currentIndex st <? String.length text)%nat then
      match String.get (currentIndex st) text with
      | Some nextChar =>
          mkState (S (currentIndex st))
                  (displayText st +:+ String nextChar EmptyString)
                  (isComplete st) true
      | None => st
      end
    else mkState (currentIndex st) (displayText st) true false
  else st.

Definition ticks (text : string) (n : nat) : State :=
  Nat.iter n (tick text) start.

End StreamingText.

(** ** The thread pane: [thread-display.tsx] *)

Module ThreadDisplay.

(** [handleClose]: the optional [onClose] prop runs first, then the atom
    loses its [selected]. *)
Definition handleClose (onClose : option (M unit)) : M unit :=
  (match onClose with
   | Some f => f
   | None => skip
   end) ;;
  setMailWith (fun m => mkMail None (bulkSelected m)).

(** The [keydown] listener. *)
Definition handleEsc (onClose : option (M unit)) (key : string) : M unit :=
  if String.eqb key "Escape" then handleClose onClose else skip.

End ThreadDisplay.

(** ** [lib/utils]: file names *)

Module Utils.

(** A JavaScript string as its sequence of code units. *)
Definition jsString : Type := list Ascii.ascii.

(** [String.prototype.lastIndexOf] for a one-unit search string. *)
Fixpoint lastIndexOf (l : jsString) (c : Ascii.ascii) : Z :=
  match l with
  | [] => -1
  | y :: l' =>
      let r := lastIndexOf l' c in
      if r =? -1 then (if Ascii.eqb y c then 0 else -1) else r + 1
  end.

Definition dots : jsString := ["."; "."; "."]%char.

Definition truncateFileName (name : jsString) (maxLength : Z) : jsString :=
  let len := Z.of_nat (length name) in
  if len <=? maxLength then name
  else
    let extIndex := lastIndexOf name "."%char in
    if negb (extIndex =? -1) && (len - extIndex <=? 5) then
      Js.slice name 0 (maxLength - 5) ++ dots ++ Js.sliceFrom name extIndex
    else
      Js.slice name 0 maxLength ++ dots.

(** [maxLength = 15] when the argument is left out. *)
Definition truncateFileName_default (name : jsString) : jsString :=
  truncateFileName name 15.

End Utils.

(** ** The beta sign-up form *)

Module Hero.

Inductive Call :=
| Post (email : string)
| FormReset
| ToastSuccess
| ToastError
| Log
| LogError.

(** [isSubmitting], the form's email field, and the calls made so far. *)
Record State := mkState {
  isSubmitting : bool;
  email : string;
  calls : list Call
}.

(** [onSubmit] up to the awaited request. *)
Definition onSubmit_start (values_email : string) (st : State) : State :=
  mkState true (email st) (calls st ++ [Log; Post values_email]).

(** The rest of [onSubmit]: the [try] body after a response, the [catch]
    after a rejection, and the [finally] in both. *)
Definition onSubmit_resume (res : Outcome) (st : State) : State :=
  match res with
  | Resolved _ =>
      mkState false "" (calls st ++ [Log; FormReset; Log; ToastSuccess; Log])
  | Rejected =>
      mkState false (email st) (calls st ++ [LogError; ToastError; Log])
  end.

Definition onSubmit (values_email : string) (res : Outcome) (st : State) : State :=
  onSubmit_resume res (onSubmit_start values_email st).

End Hero.

(** ** The session plugin of [lib/auth.ts] *)

Module Auth.

Record UserRow := mkUserRow {
  rowId : string;
  defaultConnectionId : option string
}.

Record AccountRow := mkAccountRow {
  accountUserId : string;
  accessToken : option string;
  refreshToken : option string;
  scope : option string;
  providerId : string;
  accessTokenExpiresAt : option Z
}.

Record ConnectionRow := mkConnectionRow {
  connId : string;
  connUserId : string;
  connEmail : string;
  connName : string;
  connPicture : option string;
  connAccessToken : option string;
  connRefreshToken : option string;
  connScope : option string;
  connProviderId : string;
  expiresAt : Z;
  createdAt : Z;
  updatedAt : Z
}.

(** The three tables the plugin reads; a table is its rows in the order a
    query returns them. *)
Record Db := mkDb {
  users : list UserRow;
  accounts : list AccountRow;
  connections : list ConnectionRow
}.

(** The [user] object handed to the plugin. *)
Record SessionUser := mkSessionUser {
  userId : string;
  userEmail : string;
  userName : string;
  userImage : option string
}.

(** What one call takes from outside: [crypto.randomUUID()] and the three
    clock readings of [Date.now()], [new Date()], [new Date()]. *)
Record Env := mkEnv {
  uuid : string;
  now : Z;
  created : Z;
  updated : Z
}.

(** [select ... where eq(column, user.id) limit 1]. *)
Definition firstUser (u : SessionUser) (db : Db) : option UserRow :=
  List.find (fun r => String.eqb (rowId r) (userId u)) (users db).
Definition firstConnection (u : SessionUser) (db : Db) : option ConnectionRow :=
  List.find (fun r => String.eqb (connUserId r) (userId u)) (connections db).
Definition firstAccount (u : SessionUser) (db : Db) : option AccountRow :=
  List.find (fun r => String.eqb (accountUserId r) (userId u)) (accounts db).

(** [foundUser?.activeConnectionId], when truthy. *)
Definition activeConnectionId (u : SessionUser) (db : Db) : option string :=
  match firstUser u db with
  | Some r =>
      match defaultConnectionId r with
      | Some c => if String.eqb c "" then None else Some c
      | None => None
      end
  | None => None
  end.

(** [userAccount.accessTokenExpiresAt?.getTime() || 3600000]. *)
Definition lifetime (a : AccountRow) : Z :=
  match accessTokenExpiresAt a with
  | Some t => if t =? 0 then 3600000 else t
  | None => 3600000
  end.

Definition newConnection (env : Env) (u : SessionUser) (a : AccountRow) : ConnectionRow :=
  mkConnectionRow (uuid env) (userId u) (userEmail u) (userName u) (userImage u)
                  (accessToken a) (refreshToken a) (scope a) (providerId a)
                  (now env + lifetime a) (created env) (updated env).

(** The [customSession] callback, its queries succeeding: the
    [connectionId] it returns and the database it leaves. *)
Definition customSession (env : Env) (u : SessionUser) (db : Db)
    : option string * Db :=
  match activeConnectionId u db with
  | Some c => (Some c, db)
  | None =>
      match firstConnection u db with
      | Some defaultConnection => (Some (connId defaultConnection), db)
      | None =>
          match firstAccount u db with
          | Some userAccount =>
              (None,
               mkDb (users db) (accounts db)
                    (connections db ++ [newConnection env u userAccount]))
          | None => (None, db)
          end
      end
  end.

End Auth.

(** ** Runs of the component *)

(** Modelled from the spec: the initial value of the [useMail] atom is
    declared outside this file; a SelectionState is created with nothing
    selected. The three mode flags start as [useState(false)]. *)
Definition initialWorld : World := mkWorld (mkMail None []) false false false [].

(** The selection operations, each with the loaded sequence it sees. *)
Inductive SelOp :=
| SingleClick (items : list InitialThread) (message : InitialThread)
| MassToggle (items : list InitialThread) (message : InitialThread)
| RangeSelect (items : list InitialThread) (message : InitialThread)
| SelectAllBelow (items : list InitialThread) (message : InitialThread)
| SelectAllCommand (items : list InitialThread).

Definition applyOp (op : SelOp) : M unit :=
  fun w =>
    match op with
    | SingleClick items m => MailList.handleMailClick single items (mailAtom w) m w
    | MassToggle items m => MailList.handleMailClick mass items (mailAtom w) m w
    | RangeSelect items m => MailList.handleMailClick range items (mailAtom w) m w
    | SelectAllBelow items m =>
        MailList.handleMailClick selectAllBelow items (mailAtom w) m w
    | SelectAllCommand items => MailList.selectAll items (mailAtom w) w
    end.

Definition isBulkOp (op : SelOp) : bool :=
  match op with
  | SingleClick _ _ => false
  | _ => true
  end.

Definition runOps (ops : list SelOp) (w : World) : World :=
  fold_left (fun acc op => exec (applyOp op) acc) ops w.

(** Every callback [MailList] registers. *)
Inductive handler : M unit -> Prop :=
| h_Control : handler MailList.hotkey_Control
| h_Meta : handler MailList.hotkey_Meta
| h_Shift : handler MailList.hotkey_Shift
| h_Alt_Shift : handler MailList.hotkey_Alt_Shift
| h_Meta_Shift_u mail : handler (MailList.hotkey_Meta_Shift_u_start mail)
| h_Meta_Shift_u' res : handler (MailList.hotkey_Meta_Shift_u_resume res)
| h_Control_Shift_u mail : handler (MailList.hotkey_Control_Shift_u_start mail)
| h_Control_Shift_u' res : handler (MailList.hotkey_Control_Shift_u_resume res)
| h_Meta_Shift_i mail : handler (MailList.hotkey_Meta_Shift_i_start mail)
| h_Meta_Shift_i' res : handler (MailList.hotkey_Meta_Shift_i_resume res)
| h_Control_Shift_i mail : handler (MailList.hotkey_Control_Shift_i_start mail)
| h_Control_Shift_i' res : handler (MailList.hotkey_Control_Shift_i_resume res)
| h_selectAll items mail : handler (MailList.hotkey_selectAll items mail)
| h_keyUp key : handler (MailList.handleKeyUp key)
| h_blur : handler MailList.handleBlur
| h_click items message : handler (MailList.click items message)
| h_scroll l v c t : handler (MailList.handleScroll l v c t).

Inductive reachableWorld : World -> Prop :=
| reach_init : reachableWorld initialWorld
| reach_handler m w : handler m -> reachableWorld w -> reachableWorld (exec m w).

(** The key whose release ends a mode, as [handleKeyUp] pairs them: Control
    or Meta for [mass], Shift for [range], Alt for [selectAllBelow]. *)
Definition releases (mode : MailSelectMode) (key : string) : Prop :=
  match mode with
  | mass => key = "Control" \/ key = "Meta"
  | range => key = "Shift"
  | selectAllBelow => key = "Alt"
  | single => True
  end.

(** At most one mode flag is set. *)
Definition oneFlag (w : World) : bool :=
  match massSelectMode w, rangeSelectMode w, selectAllBelowMode w with
  | true, true, _ | true, _, true | _, true, true => false
  | _, _, _ => true
  end.

(** ** Specification vocabulary *)

(** The selection key of a row: its conversation, else the row itself. *)
Definition selectionKey (message : InitialThread) : string :=
  match threadId message with
  | Some t => t
  | None => id message
  end.

(** The anchor of a range click: the last entry of [bulkSelected], else the
    selected id, else the clicked row's own id. *)
Definition rangeAnchor (mail : MailState) (message : InitialThread) : string :=
  match last (bulkSelected mail) with
  | Some x => x
  | None =>
      match selected mail with
      | Some s => s
      | None => id message
      end
  end.

(** [x] occurs in [l] at index [a], its first occurrence. *)
Definition occursAt (l : list string) (x : string) (a : nat) : Prop :=
  l !! a = Some x /\ forall j, (j < a)%nat -> l !! j <> Some x.

(** The effects a computation adds to the trace of the world it runs in. *)
Definition emitted {A} (m : M A) (w : World) : list Effect :=
  drop (length (trace w)) (trace (snd (m w))).

(** The row matches the open selection as the handler tests it: by its
    conversation id or by its own id. *)
Definition matchesSelected (message : InitialThread) (mail : MailState) : Prop :=
  selected mail = Some (id message) \/
  exists t, threadId message = Some t /\ selected mail = Some t.

(** One bulk read-state hotkey: the request goes out for the
    [bulkSelected] the callback closed over; a response reporting success
    is answered by the success notice and an emptied [bulkSelected]; one
    reporting failure by the failure notice alone. *)
Definition settles (start : MailState -> M unit) (resume : Outcome -> M unit)
    (request : list string -> Effect) (okText failText : string) : Prop :=
  forall (mail : MailState) (w : World),
    (emitted (start mail) w = [request (bulkSelected mail)] /\
     mailAtom (exec (start mail) w) = mailAtom w) /\
    (bulkSelected (mailAtom (exec (resume (Resolved true)) w)) = [] /\
     emitted (resume (Resolved true)) w = [Toast success okText]) /\
    (mailAtom (exec (resume (Resolved false)) w) = mailAtom w /\
     emitted (resume (Resolved false)) w = [Toast error failText]).



Definition rowClick (items : list InitialThread) (message : InitialThread)
    (w : World) (res : Outcome) (mutateOk : bool) : M unit :=
  Thread.handleMailClick (MailList.selectMode w)
    (MailList.handleMailClick (MailList.selectMode w) items (mailAtom w))
    (mailAtom w) message res mutateOk.

(** The distance from the bottom of the content to the bottom of the
    viewport. *)
Definition distanceToBottom (t : MailList.ScrollTarget) : Q :=
  (MailList.scrollHeight t - (MailList.scrollTop t + MailList.clientHeight t))%Q.

(** What holds of a row between events: a pending timer is the one
    [hoverTimeoutRef] names, there is at most one, and there is none while
    the pointer is outside or once the row has been prefetched. *)
Definition wf (r : Thread.Row) : Prop :=
  Forall (fun t => Thread.hoverTimeoutRef r = Some (Thread.handle t))
         (Thread.timers r) /\
  (length (Thread.timers r) <= 1)%nat /\
  (Thread.isHovering r = false -> Thread.timers r = []) /\
  (Thread.hasPrefetched r = true -> Thread.timers r = []).

(** What a row may still issue before its id changes. *)
Definition budget (r : Thread.Row) : nat :=
  if Thread.hasPrefetched r then 0%nat else 1%nat.

(** A run of submissions, each with what became of its request. *)
Definition submitAll (subs : list (string * Outcome)) (st : Hero.State) : Hero.State :=
  fold_left (fun acc p => Hero.onSubmit (fst p) (snd p) acc) subs st.

Definition isToast (c : Hero.Call) : bool :=
  match c with
  | Hero.ToastSuccess | Hero.ToastError => true
  | _ => false
  end.

(** The addresses posted, in order. *)
Definition posted (cs : list Hero.Call) : list string :=
  omap (fun c => match c with Hero.Post e => Some e | _ => None end) cs.

(** ** Sample data *)

Definition rowA : InitialThread := mkThread "a" None true.
Definition rowB : InitialThread := mkThread "b" None false.
Definition rowC : InitialThread := mkThread "c" (Some "tc") true.
Definition rowD : InitialThread := mkThread "d" None false.
Definition inbox : list InitialThread := [rowA; rowB; rowC; rowD].

(** A row that is not loaded. *)
Definition rowZ : InitialThread := mkThread "z" None true.

(** Two rows of one view: the conversation id of the first is the message
    id of the second. *)
Definition rowT : InitialThread := mkThread "t" (Some "m1") false.
Definition rowM : InitialThread := mkThread "m1" (Some "t2") false.

(** Shift held with ["d"] bulk-selected; Alt+Shift held. *)
Definition rangeWorld : World :=
  mkWorld (mkMail None ["d"]) false true false [].
Definition belowWorld : World :=
  mkWorld (mkMail (Some "a") ["b"]) false false true [].

Definition alice : Thread.Session := Thread.mkSession "u1" (Some "conn1").

Definition nearBottom : MailList.ScrollTarget :=
  MailList.mkTarget 900 1100 100.

(** Control held with ["b"] bulk-selected and thread ["a"] open. *)
Definition massWorld : World :=
  mkWorld (mkMail (Some "a") ["b"]) true false false [].

(** Shift held with ["b"] bulk-selected, for a range ending at row d. *)
Definition rangeWorld' : World :=
  mkWorld (mkMail None ["b"]) false true false [].

Definition reportName : Utils.jsString :=
  String.list_ascii_of_string "quarterly-report-final".
Definition pdf : Utils.jsString := String.list_ascii_of_string "pdf".

(** A user who signed in with a provider and has no connection yet. *)
Definition bob : Auth.SessionUser := Auth.mkSessionUser "u2" "bob@example.com" "Bob" None.
Definition bobAccount : Auth.AccountRow :=
  Auth.mkAccountRow "u2" (Some "at") (Some "rt") (Some "mail") "google" None.
Definition freshDb : Auth.Db :=
  Auth.mkDb [Auth.mkUserRow "u2" None] [bobAccount] [].
Definition env1 : Auth.Env := Auth.mkEnv "c-1" 1000 1001 1002.
Definition env2 : Auth.Env := Auth.mkEnv "c-2" 2000 2001 2002.

(** ** Proof automation *)

Ltac by_flags w :=
  let ml := fresh "ml" in
  let tr := fresh "tr" in
  destruct w as [ml [] [] [] tr]; done.

Ltac by_outcome res w :=
  destruct res as [[]|]; by_flags w.

Ltac wf_close :=
  unfold wf; simpl; repeat split; simpl;
  first [ done | lia | by apply Forall_singleton | by intros ].

(** * Properties *)

(** ** JavaScript helpers *)

Section JsFacts.

Lemma indexOf_range l x : -1 <= Js.indexOf l x < Z.of_nat (length l).
Proof.
  induction l as [|y l IH]; simpl; [lia|].
  destruct (String.eqb y x); [lia|].
  destruct (Z.eqb_spec (Js.indexOf l x) (-1)); lia.
Qed.

Lemma indexOf_absent l x : Js.indexOf l x = -1 <-> x ∉ l.
Proof.
  induction l as [|y l IH]; simpl.
  - split; [intros _; apply not_elem_of_nil | done].
  - destruct (String.eqb_spec y x) as [->|Hne].
    + split; [lia | intros H; exfalso; apply H; left].
    + pose proof (indexOf_range l x) as Hr.
      destruct (Z.eqb_spec (Js.indexOf l x) (-1)) as [He|He].
      * split; [|done]. intros _ Hin.
        apply elem_of_cons in Hin as [->|Hin]; [done|]. by apply IH.
      * split; [lia|]. intros Hnin. exfalso. apply He, IH.
        intros Hin. apply Hnin. by right.
Qed.

Lemma indexOf_occursAt l x a :
  Js.indexOf l x = Z.of_nat a <-> occursAt l x a.
Proof.
  revert a. induction l as [|y l IH]; intros a; simpl.
  - split; [lia | intros [H _]; done].
  - destruct (String.eqb_spec y x) as [->|Hne].
    + split.
      * intros H. assert (a = 0%nat) as -> by lia.
        split; [done | intros j Hj; lia].
      * intros [Ha Hfirst]. destruct a as [|a]; [done|].
        exfalso. apply (Hfirst 0%nat); [lia | done].
    + pose proof (indexOf_range l x) as Hr.
      destruct (Z.eqb_spec (Js.indexOf l x) (-1)) as [He|He].
      * split; [lia|]. intros [Ha _]. exfalso.
        destruct a as [|a]; simpl in Ha; [congruence|].
        apply indexOf_absent in He. apply He.
        by apply list_elem_of_lookup_2 in Ha.
      * split.
        -- intros H. destruct a as [|a]; [lia|].
           assert (Js.indexOf l x = Z.of_nat a) as Hi by lia.
           apply IH in Hi as [Ha Hfirst]. split; [done|].
           intros [|j] Hj; simpl; [congruence|]. apply Hfirst. lia.
        -- intros [Ha Hfirst]. destruct a as [|a]; simpl in Ha; [congruence|].
           assert (Js.indexOf l x = Z.of_nat a) as Hi; [|lia].
           apply IH. split; [done|]. intros j Hj.
           apply (Hfirst (S j)). lia.
Qed.

(** With unique ids an id has one index only, the first. *)
Lemma NoDup_occursAt l x a : NoDup l -> l !! a = Some x -> occursAt l x a.
Proof.
  intros Hnd Ha. split; [done|]. intros j Hj Hjx.
  pose proof (NoDup_lookup l j a x Hnd Hjx Ha). lia.
Qed.

Lemma lastEntry_last {A} (l : list A) : Js.lastEntry l = last l.
Proof.
  unfold Js.lastEntry. rewrite last_lookup.
  destruct (length l) eqn:E; simpl; [|done].
  destruct l; [done | discriminate].
Qed.

Lemma slice_take_drop {A} (l : list A) (lo hi : nat) :
  (lo <= hi <= length l)%nat ->
  Js.slice l (Z.of_nat lo) (Z.of_nat hi) = take (hi - lo) (drop lo l).
Proof.
  intros H. unfold Js.slice, Js.relIndex.
  destruct (Z.ltb_spec (Z.of_nat lo) 0); [lia|].
  destruct (Z.ltb_spec (Z.of_nat hi) 0); [lia|].
  f_equal; [|f_equal]; lia.
Qed.

Lemma slice_length {A} (l : list A) (lo hi : nat) :
  (lo <= hi <= length l)%nat ->
  length (Js.slice l (Z.of_nat lo) (Z.of_nat hi)) = (hi - lo)%nat.
Proof.
  intros H. rewrite slice_take_drop by done.
  rewrite length_take, length_drop. lia.
Qed.

Lemma slice_lookup {A} (l : list A) (lo hi k : nat) :
  (lo <= hi <= length l)%nat -> (k < hi - lo)%nat ->
  Js.slice l (Z.of_nat lo) (Z.of_nat hi) !! k = l !! (lo + k)%nat.
Proof.
  intros H Hk. rewrite slice_take_drop by done.
  rewrite lookup_take_lt by done. by rewrite lookup_drop.
Qed.

Lemma includes_elem_of l x : Js.includes l x = true <-> x ∈ l.
Proof.
  induction l as [|y l IH]; simpl.
  - split; [done | intros H; by apply not_elem_of_nil in H].
  - rewrite elem_of_cons.
    destruct (String.eqb_spec y x) as [->|Hne]; simpl.
    + split; [intros _; by left | done].
    + rewrite IH. split; [intros H; by right | intros [->|H]; done].
Qed.

End JsFacts.

(** ** Row clicks *)

Section Clicks.

Variable items : list InitialThread.
Variable message : InitialThread.

Lemma anchor_as_coded (mail : MailState) :
  Js.nullish (Js.lastEntry (bulkSelected mail))
             (Js.nullish (selected mail) (id message))
  = rangeAnchor mail message.
Proof.
  unfold rangeAnchor. rewrite lastEntry_last.
  destruct (last (bulkSelected mail)); [done|].
  by destruct (selected mail).
Qed.

Lemma selectionKey_as_coded :
  Js.nullish (threadId message) (id message) = selectionKey message.
Proof. done. Qed.

Lemma exec_click (w : World) :
  exec (MailList.click items message) w =
  exec (MailList.handleMailClick (MailList.selectMode w) items (mailAtom w) message) w.
Proof. reflexivity. Qed.

Lemma occursAt_lt l x a : occursAt l x a -> (a < length l)%nat.
Proof. intros [H _]. by apply lookup_lt_Some in H. Qed.

(** What a range click stores when both indices are found. *)
Lemma range_click_found (w : World) (a b : nat) :
  MailList.selectMode w = range ->
  occursAt (map id items) (rangeAnchor (mailAtom w) message) a ->
  occursAt (map id items) (id message) b ->
  exec (MailList.click items message) w =
  exec (setMail (mkMail (selected (mailAtom w))
          (Js.slice (map id items) (Z.of_nat (Nat.min a b))
                    (Z.of_nat (Nat.max a b + 1))))) w.
Proof.
  intros Hmode Ha Hb. rewrite exec_click, Hmode. simpl.
  rewrite anchor_as_coded.
  apply indexOf_occursAt in Ha, Hb. rewrite Ha, Hb.
  destruct (Z.eqb_spec (Z.of_nat a) (-1)); [lia|].
  destruct (Z.eqb_spec (Z.of_nat b) (-1)); [lia|]. simpl.
  replace (Z.min (Z.of_nat a) (Z.of_nat b)) with (Z.of_nat (Nat.min a b)) by lia.
  replace (Z.max (Z.of_nat a) (Z.of_nat b) + 1)
    with (Z.of_nat (Nat.max a b + 1)) by lia.
  done.
Qed.

(** C1. A click in [range] mode, with the anchor (last entry of
    [bulkSelected], else [selected], else the clicked row) at index [a] of
    the loaded sequence and the clicked row at index [b], makes
    [bulkSelected] the ids at indices [min a b .. max a b], inclusive and in
    sequence order, whichever of [a] and [b] is the smaller. An id's index
    is that of its first occurrence, its only one when ids are unique. *)
Theorem range_click_selects_slice (w : World) (a b : nat) :
  MailList.selectMode w = range ->
  occursAt (map id items) (rangeAnchor (mailAtom w) message) a ->
  occursAt (map id items) (id message) b ->
  let result := bulkSelected (mailAtom (exec (MailList.click items message) w)) in
  length result = (Nat.max a b - Nat.min a b + 1)%nat /\
  forall k, (k <= Nat.max a b - Nat.min a b)%nat ->
    result !! k = map id items !! (Nat.min a b + k)%nat.
Proof.
  intros Hmode Ha Hb result. subst result.
  rewrite (range_click_found w a b Hmode Ha Hb). simpl.
  pose proof (occursAt_lt _ _ _ Ha). pose proof (occursAt_lt _ _ _ Hb).
  split.
  - rewrite slice_length by lia. lia.
  - intros k Hk. apply slice_lookup; lia.
Qed.

(** The same for any occurrence indices when the loaded ids are unique. *)
Corollary range_click_unique_ids (w : World) (a b : nat) :
  NoDup (map id items) ->
  MailList.selectMode w = range ->
  map id items !! a = Some (rangeAnchor (mailAtom w) message) ->
  map id items !! b = Some (id message) ->
  bulkSelected (mailAtom (exec (MailList.click items message) w)) =
  take (Nat.max a b - Nat.min a b + 1) (drop (Nat.min a b) (map id items)).
Proof.
  intros Hnd Hmode Ha Hb.
  apply (NoDup_occursAt _ _ _ Hnd) in Ha, Hb.
  rewrite (range_click_found w a b Hmode Ha Hb). simpl.
  pose proof (occursAt_lt _ _ _ Ha). pose proof (occursAt_lt _ _ _ Hb).
  rewrite slice_take_drop by lia. f_equal. lia.
Qed.

(** C10. A [range] click whose anchor or clicked id is not in the loaded
    sequence, and a [selectAllBelow] click whose clicked id is not in it,
    leave [selected] and [bulkSelected] as they were. *)
Theorem unloaded_click_keeps_selection (w : World) :
  (MailList.selectMode w = range ->
   rangeAnchor (mailAtom w) message ∉ map id items \/
     id message ∉ map id items ->
   mailAtom (exec (MailList.click items message) w) = mailAtom w) /\
  (MailList.selectMode w = selectAllBelow ->
   id message ∉ map id items ->
   mailAtom (exec (MailList.click items message) w) = mailAtom w).
Proof.
  split; intros Hmode Habs; rewrite exec_click, Hmode; simpl.
  - rewrite anchor_as_coded.
    destruct Habs as [Habs|Habs]; apply indexOf_absent in Habs; rewrite Habs.
    + done.
    + simpl. by rewrite andb_false_r.
  - apply indexOf_absent in Habs. by rewrite Habs.
Qed.

Lemma matchesSelected_as_coded (mail : MailState) :
  MailList.selectedIsThreadId mail message || MailList.selectedIsId mail message = true
  <-> matchesSelected message mail.
Proof.
  unfold MailList.selectedIsThreadId, MailList.selectedIsId, matchesSelected.
  destruct (selected mail) as [s|]; simpl.
  - destruct (threadId message) as [t|]; simpl.
    + destruct (String.eqb_spec s t) as [->|Hst]; simpl.
      * split; [intros _; right; by exists t | done].
      * destruct (String.eqb_spec s (id message)) as [->|Hsi].
        -- split; [intros _; by left | done].
        -- split; [done|]. intros [H|(t' & Ht & H)]; congruence.
    + destruct (String.eqb_spec s (id message)) as [->|Hsi].
      * split; [intros _; by left | done].
      * split; [done|]. intros [H|(t' & Ht & H)]; congruence.
  - split; [by destruct (threadId message)|].
    intros [H|(t' & Ht & H)]; congruence.
Qed.

(** C4, as the code has it. In [single] mode, clicking a row whose
    [threadId] or whose [id] equals [selected] clears [selected] and
    empties [bulkSelected]; clicking any other row sets [selected] to the
    row's selection key and empties [bulkSelected]. *)
Theorem single_click_toggles (w : World) :
  MailList.selectMode w = single ->
  (matchesSelected message (mailAtom w) ->
   mailAtom (exec (MailList.click items message) w) = mkMail None []) /\
  (~ matchesSelected message (mailAtom w) ->
   mailAtom (exec (MailList.click items message) w)
   = mkMail (Some (selectionKey message)) []).
Proof.
  intros Hmode. rewrite exec_click, Hmode. simpl.
  pose proof (matchesSelected_as_coded (mailAtom w)) as Hm.
  destruct (MailList.selectedIsThreadId (mailAtom w) message
            || MailList.selectedIsId (mailAtom w) message).
  - split; [done|]. intros Hn. exfalso. by apply Hn, Hm.
  - split; [|done]. intros H. apply Hm in H. discriminate.
Qed.

End Clicks.

(** ** Selection state across operations *)

Section SelectionRuns.

Lemma bulk_op_keeps_selected (op : SelOp) (w : World) :
  isBulkOp op = true ->
  selected (mailAtom (exec (applyOp op) w)) = selected (mailAtom w).
Proof.
  intros Hb. destruct op as [items m|items m|items m|items m|items];
    try discriminate; unfold exec, applyOp; simpl.
  - done.
  - destruct (_ && _); done.
  - destruct (negb _); done.
  - unfold MailList.selectAll.
    destruct (0 <? length (bulkSelected (mailAtom w)))%nat; [done|].
    destruct (0 <? length items)%nat; done.
Qed.

Lemma runOps_snoc ops op w :
  runOps (ops ++ [op]) w = exec (applyOp op) (runOps ops w).
Proof. unfold runOps. by rewrite fold_left_app. Qed.

(** C2, as the code has it. A single-mode click always leaves
    [bulkSelected] empty, and no bulk operation (mass toggle, range
    select, selectAllBelow, select-all command) changes [selected]: after
    any run of bulk operations [selected] is what it was before the run. *)
Theorem bulk_ops_keep_selected :
  (forall items message w,
     bulkSelected (mailAtom (exec (applyOp (SingleClick items message)) w)) = []) /\
  (forall ops w,
     Forall (fun op => isBulkOp op = true) ops ->
     selected (mailAtom (runOps ops w)) = selected (mailAtom w)).
Proof.
  split.
  - intros items message w. unfold exec, applyOp. simpl.
    destruct (_ || _); done.
  - intros ops. induction ops as [|op ops IH] using rev_ind; intros w Hall.
    + done.
    + apply Forall_app in Hall as [Hops Hop].
      apply Forall_inv in Hop. simpl in Hop.
      rewrite runOps_snoc. rewrite (bulk_op_keeps_selected op _ Hop).
      by apply IH.
Qed.

End SelectionRuns.

(** ** Selection modes *)

Section Modes.

Lemma click_oneFlag items message w :
  oneFlag (exec (MailList.click items message) w) = oneFlag w.
Proof.
  rewrite exec_click. unfold exec.
  destruct (MailList.selectMode w); simpl.
  - done.
  - destruct (_ && _); done.
  - destruct (_ || _); done.
  - destruct (negb _); done.
Qed.

Lemma handler_oneFlag m w : handler m -> oneFlag w = true -> oneFlag (exec m w) = true.
Proof.
  intros Hm. destruct Hm.
  - by_flags w.
  - by_flags w.
  - by_flags w.
  - by_flags w.
  - by_flags w.
  - by_outcome res w.
  - by_flags w.
  - by_outcome res w.
  - by_flags w.
  - by_outcome res w.
  - by_flags w.
  - by_outcome res w.
  - unfold exec, MailList.hotkey_selectAll, MailList.selectAll, bind. simpl.
    destruct (0 <? length (bulkSelected mail))%nat; simpl; [done|].
    destruct (0 <? length items)%nat; done.
  - unfold exec, MailList.handleKeyUp, bind. simpl.
    destruct (String.eqb key "Control" || String.eqb key "Meta");
      destruct (String.eqb key "Shift"); destruct (String.eqb key "Alt");
      by_flags w.
  - by_flags w.
  - by rewrite click_oneFlag.
  - unfold exec, MailList.handleScroll.
    destruct (l || v); [done|]. destruct (MailList.Qltb _ _); done.
Qed.

Lemma reachable_oneFlag w : reachableWorld w -> oneFlag w = true.
Proof.
  induction 1 as [|m w Hm Hw IH]; [done|]. by apply handler_oneFlag.
Qed.

(** A key release ends the mode it is paired with and leaves any other. *)
Lemma keyUp_mode (w : World) (key : string) :
  oneFlag w = true ->
  MailList.selectMode (exec (MailList.handleKeyUp key) w) =
  match MailList.selectMode w with
  | mass => if String.eqb key "Control" || String.eqb key "Meta" then single else mass
  | range => if String.eqb key "Shift" then single else range
  | selectAllBelow => if String.eqb key "Alt" then single else selectAllBelow
  | single => single
  end.
Proof.
  destruct w as [ml fm fr fa tr].
  unfold oneFlag, MailList.selectMode, exec, MailList.handleKeyUp, bind. simpl.
  destruct (String.eqb key "Control" || String.eqb key "Meta");
    destruct (String.eqb key "Shift"); destruct (String.eqb key "Alt");
    destruct fm, fr, fa; simpl; done.
Qed.

(** C3, as the code has it. Releasing Control or Meta while the mode is
    [mass], Shift while it is [range], or Alt while it is [selectAllBelow]
    makes the mode [single], and in [single] mode a key release leaves it
    [single]; releasing Shift while the mode is [selectAllBelow], which
    Alt+Shift set, leaves it [selectAllBelow]; a window blur makes the mode
    [single] from every state. *)
Theorem release_or_blur_resets_mode :
  (forall w key,
     reachableWorld w -> releases (MailList.selectMode w) key ->
     MailList.selectMode (exec (MailList.handleKeyUp key) w) = single) /\
  (forall w,
     reachableWorld w -> MailList.selectMode w = selectAllBelow ->
     MailList.selectMode (exec (MailList.handleKeyUp "Shift") w) = selectAllBelow) /\
  (forall w, MailList.selectMode (exec MailList.handleBlur w) = single).
Proof.
  split; [|split].
  - intros w key Hw Hrel. rewrite keyUp_mode by by apply reachable_oneFlag.
    destruct (MailList.selectMode w); simpl in Hrel.
    + destruct Hrel as [->| ->]; done.
    + by subst.
    + done.
    + by subst.
  - intros w Hw Hmode. rewrite keyUp_mode by by apply reachable_oneFlag.
    by rewrite Hmode.
  - intros w. done.
Qed.

(** Against C3: Alt+Shift sets [selectAllBelow]; releasing Shift, one of
    the two keys that set it, does not make the mode [single]. *)
Lemma shift_release_in_selectAllBelow :
  let w := exec MailList.hotkey_Alt_Shift initialWorld in
  reachableWorld w /\
  MailList.selectMode w = selectAllBelow /\
  MailList.selectMode (exec (MailList.handleKeyUp "Shift") w) = selectAllBelow /\
  MailList.selectMode (exec (MailList.handleKeyUp "Shift") w) <> single.
Proof.
  split; [apply reach_handler; constructor|]. repeat split. discriminate.
Qed.

End Modes.

(** ** Read-state requests *)

Section ReadState.

Variable items : list InitialThread.
Variable message : InitialThread.

Lemma emitted_app {A} (m : M A) (w : World) (es : list Effect) :
  trace (snd (m w)) = trace w ++ es -> emitted m w = es.
Proof. intros H. unfold emitted. rewrite H. apply drop_app_length. Qed.

Lemma emitted_nil {A} (m : M A) (w : World) :
  trace (snd (m w)) = trace w -> emitted m w = [].
Proof. intros H. apply emitted_app. by rewrite app_nil_r. Qed.

(** C5. For the bulk mark-as-read and mark-as-unread hotkeys: a response
    reporting success empties [bulkSelected] and raises the success notice;
    a response reporting failure leaves [bulkSelected] as it is and raises
    the failure notice. *)
Theorem bulk_mark_settles :
  settles MailList.hotkey_Meta_Shift_i_start MailList.hotkey_Meta_Shift_i_resume
          MarkAsRead "Marked as read" "Failed to mark as read" /\
  settles MailList.hotkey_Control_Shift_i_start MailList.hotkey_Control_Shift_i_resume
          MarkAsRead "Marked as read" "Failed to mark as read" /\
  settles MailList.hotkey_Meta_Shift_u_start MailList.hotkey_Meta_Shift_u_resume
          MarkAsUnread "Marked as unread" "Failed to mark as unread" /\
  settles MailList.hotkey_Control_Shift_u_start MailList.hotkey_Control_Shift_u_resume
          MarkAsUnread "Marked as unread" "Failed to mark as unread".
Proof.
  unfold settles. repeat split;
    solve [ done | apply emitted_app; unfold exec, bind; simpl; done ].
Qed.

(** A request that rejects ends the callback: no notice, no change. *)
Lemma bulk_mark_rejected (w : World) :
  exec (MailList.hotkey_Meta_Shift_i_resume Rejected) w = w /\
  exec (MailList.hotkey_Control_Shift_i_resume Rejected) w = w /\
  exec (MailList.hotkey_Meta_Shift_u_resume Rejected) w = w /\
  exec (MailList.hotkey_Control_Shift_u_resume Rejected) w = w.
Proof. done. Qed.

(** C6, the failing run. With ["a"] and ["b"] bulk-selected, Meta+Shift+i
    and a response reporting success: the request and the success notice
    are the only calls made, and no revalidation is among them; the row
    click's request, once resolved, does revalidate. *)
Theorem bulk_mark_read_skips_revalidation :
  let w := mkWorld (mkMail None ["a"; "b"]) false false false [] in
  let after :=
    exec (MailList.hotkey_Meta_Shift_i_resume (Resolved true))
         (exec (MailList.hotkey_Meta_Shift_i_start (mailAtom w)) w) in
  trace after = [MarkAsRead ["a"; "b"]; Toast success "Marked as read"] /\
  (Mutate ∉ trace after) /\
  (forall w' ok mutateOk,
     Mutate ∈ emitted (Thread.handleMailClick_resume (Resolved ok) mutateOk) w').
Proof.
  split; [done|]. split.
  - simpl. intros H. repeat (apply elem_of_cons in H as [H|H]; [discriminate|]).
    by apply not_elem_of_nil in H.
  - intros w' ok mutateOk.
    destruct mutateOk.
    + rewrite (emitted_app _ _ [Mutate]) by done. by left.
    + rewrite (emitted_app _ _ [Mutate; ConsoleError]);
        [by left | unfold bind; simpl; by rewrite <- app_assoc].
Qed.

(** No response makes a bulk hotkey revalidate. *)
Lemma bulk_mark_never_revalidates (res : Outcome) (w : World) :
  (Mutate ∉ emitted (MailList.hotkey_Meta_Shift_i_resume res) w) /\
  (Mutate ∉ emitted (MailList.hotkey_Control_Shift_i_resume res) w) /\
  (Mutate ∉ emitted (MailList.hotkey_Meta_Shift_u_resume res) w) /\
  Mutate ∉ emitted (MailList.hotkey_Control_Shift_u_resume res) w.
Proof.
  repeat split; destruct res as [[]|];
    first [ rewrite (emitted_nil _ _) by done; apply not_elem_of_nil
          | erewrite emitted_app by (unfold bind; simpl; done);
            intros H; apply elem_of_cons in H as [H|H];
            [discriminate | by apply not_elem_of_nil in H] ].
Qed.




End ReadState.

(** ** Scrolling *)

Section Scrolling.

Lemma Qltb_lt (x y : Q) : MailList.Qltb x y = true <-> (x < y)%Q.
Proof.
  unfold MailList.Qltb. rewrite negb_true_iff.
  split.
  - intros H. apply Qnot_le_lt. intros Hle.
    apply Qle_bool_iff in Hle. congruence.
  - intros H. destruct (Qle_bool y x) eqn:E; [|done].
    apply Qle_bool_iff in E. exfalso. by apply (Qlt_not_le x y).
Qed.

(** C9. A scroll event calls [loadMore] if and only if neither an initial
    load nor a validation fetch is pending and the distance to the bottom
    is under two estimated row heights; it calls it at most once, so never
    while a fetch is pending. *)
Theorem scroll_loads_more (isLoading isValidating : bool)
    (isCompact : option bool) (target : MailList.ScrollTarget) (w : World) :
  let calls :=
    emitted (MailList.handleScroll isLoading isValidating isCompact target) w in
  (LoadMore ∈ calls <->
   isLoading = false /\ isValidating = false /\
   (distanceToBottom target < MailList.itemHeight isCompact * 2)%Q) /\
  (calls = [] \/ calls = [ConsoleLog "Loading more items..."; LoadMore]) /\
  (isLoading = true \/ isValidating = true -> calls = []).
Proof.
  intros calls. subst calls. unfold MailList.handleScroll, distanceToBottom.
  rewrite <- Qltb_lt.
  destruct isLoading, isValidating; simpl;
    try (rewrite (emitted_nil _ _) by done;
         split; [split; [intros H; by apply not_elem_of_nil in H | intros (?&?&?); done]
                | split; [by left | done]]).
  destruct (MailList.Qltb _ _).
  - erewrite emitted_app
      by (unfold bind; simpl; rewrite <- app_assoc; reflexivity).
    split; [split; [done | intros _; right; by left]|].
    split; [by right | intros [?|?]; done].
  - rewrite (emitted_nil _ _) by done.
    split; [split; [intros H; by apply not_elem_of_nil in H | intros (?&?&?); done]|].
    split; [by left | done].
Qed.

End Scrolling.

(** ** Hover prefetch *)

Section Hover.

Import Thread.

Lemma clearHoverTimeout_nil (r : Row) :
  Forall (fun t => hoverTimeoutRef r = Some (handle t)) (timers r) ->
  clearHoverTimeout r = [].
Proof.
  unfold clearHoverTimeout. destruct (hoverTimeoutRef r) as [h|].
  - induction (timers r) as [|t ts IH]; intros Hall; [done|].
    inversion Hall as [|? ? Ht Hts]; subst. injection Ht as ->.
    simpl. rewrite Nat.eqb_refl. simpl. by apply IH.
  - destruct (timers r); [done|]. intros Hall. by inversion Hall.
Qed.

Lemma timers_nil_or_one (r : Row) :
  (length (timers r) <= 1)%nat -> timers r = [] \/ exists t, timers r = [t].
Proof.
  destruct (timers r) as [|t [|t' ts]]; simpl; intros H;
    [by left | right; by exists t | lia].
Qed.

Lemma advance_nil (d : nat) (r : Row) :
  timers r = [] ->
  advance d r = mkRow (now r + d) (isHovering r) (hasPrefetched r)
                      (hoverTimeoutRef r) (nextHandle r) [] (preloads r).
Proof. intros H. unfold advance. by rewrite H. Qed.

Lemma advance_one (d : nat) (r : Row) (t : Timer) :
  timers r = [t] ->
  advance d r =
  if isDue (now r + d) t
  then onTimeout t (mkRow (now r + d) (isHovering r) (hasPrefetched r)
                          (hoverTimeoutRef r) (nextHandle r) [] (preloads r))
  else mkRow (now r + d) (isHovering r) (hasPrefetched r)
             (hoverTimeoutRef r) (nextHandle r) [t] (preloads r).
Proof.
  intros H. unfold advance. rewrite H. simpl.
  by destruct (isDue (now r + d) t).
Qed.

Lemma wf_step (r : Row) (e : Event) : wf r -> wf (step r e).
Proof.
  intros (Href & Hlen & Hout & Hdone).
  pose proof (clearHoverTimeout_nil r Href) as Hclear.
  destruct e as [mode session message| |d| |]; simpl.
  - unfold handleMouseEnter.
    destruct (isSingle mode), (sessionUser session) as [s|],
      (hasPrefetched r) eqn:Hp; try rewrite Hclear; wf_close.
  - unfold handleMouseLeave. rewrite Hclear. wf_close.
  - destruct (timers_nil_or_one r Hlen) as [Hn|[t Ht]].
    + rewrite (advance_nil d r Hn). wf_close.
    + rewrite (advance_one d r t Ht). rewrite Ht in *.
      destruct (isDue (now r + d) t).
      * unfold onTimeout. simpl. destruct (isHovering r); wf_close.
      * wf_close.
  - unfold messageIdChanged. wf_close.
  - unfold unmount. rewrite Hclear. wf_close.
Qed.

Lemma reachable_wf (r : Row) : Thread.reachable r -> wf r.
Proof.
  induction 1 as [|r e Hr IH]; [|by apply wf_step].
  unfold mount. wf_close.
Qed.

Lemma reachable_run (es : list Event) (r : Row) :
  Thread.reachable r -> Thread.reachable (run es r).
Proof.
  revert r. induction es as [|e es IH]; intros r Hr; [done|].
  simpl. apply IH. by constructor.
Qed.

(** Once prefetched, a row issues nothing more until its id changes. *)
Lemma prefetched_step (r : Row) (e : Event) :
  wf r -> hasPrefetched r = true -> keepsId e = true ->
  hasPrefetched (step r e) = true /\ preloads (step r e) = preloads r.
Proof.
  intros (Href & Hlen & Hout & Hdone) Hp Hk.
  destruct e as [mode session message| |d| |]; simpl; try done.
  - unfold handleMouseEnter.
    destruct (isSingle mode), (sessionUser session) as [s|]; rewrite ?Hp; done.
  - by rewrite (advance_nil d r (Hdone Hp)).
Qed.

Lemma prefetched_run (es : list Event) (r : Row) :
  Thread.reachable r -> hasPrefetched r = true ->
  Forall (fun e => keepsId e = true) es ->
  preloads (run es r) = preloads r.
Proof.
  revert r. induction es as [|e es IH]; intros r Hr Hp Hall; [done|].
  inversion Hall as [|? ? He Hes]; subst. simpl.
  destruct (prefetched_step r e (reachable_wf r Hr) Hp He) as [Hp' Hpre].
  rewrite IH; [done | by constructor | done | done].
Qed.

Lemma enter_starts_timer (r : Row) (s : Session) (message : InitialThread) :
  wf r -> userId s <> "" -> hasPrefetched r = false ->
  handleMouseEnter single (Some s) message r =
  mkRow (now r) true false (Some (nextHandle r)) (S (nextHandle r))
        [mkTimer (nextHandle r) (now r + HOVER_DELAY) s message] (preloads r).
Proof.
  intros (Href & _) Hs Hp. unfold handleMouseEnter, sessionUser. simpl.
  destruct (String.eqb_spec (userId s) "") as [?|_]; [done|].
  rewrite Hp. by rewrite (clearHoverTimeout_nil r Href).
Qed.

(** C8. For a row the pointer is outside of: entering and leaving before
    the 1000ms delay has passed issues no prefetch and leaves no timer
    behind. For a row not yet prefetched: entering in [single] mode with a
    user identity and staying for 1000ms or more issues one prefetch, keyed
    by [threadId] if present, else [id], and nothing more is issued until
    the row's id changes. *)
Theorem hover_prefetch (r : Row) :
  Thread.reachable r ->
  (isHovering r = false ->
   forall mode session message d,
     (d < HOVER_DELAY)%nat ->
     let r' := handleMouseLeave (advance d (handleMouseEnter mode session message r)) in
     preloads r' = preloads r /\ timers r' = [] /\
     forall d', preloads (advance d' r') = preloads r) /\
  (hasPrefetched r = false ->
   forall s message d es,
     userId s <> "" -> (HOVER_DELAY <= d)%nat ->
     Forall (fun e => keepsId e = true) es ->
     preloads (run es (advance d (handleMouseEnter single (Some s) message r)))
     = preloads r ++ [mkPreload (userId s) (selectionKey message) (connectionId s)]).
Proof.
  intros Hr. pose proof (reachable_wf r Hr) as Hwf. split.
  - intros Hout mode session message d Hd r'.
    assert (Thread.reachable r') as Hr'.
    { apply (reach_step _ MouseLeave), (reach_step _ (Advance d)),
            (reach_step _ (MouseEnter mode session message)), Hr. }
    assert (timers r' = []) as Ht.
    { subst r'. simpl.
      apply clearHoverTimeout_nil, (reachable_wf _).
      apply (reach_step _ (Advance d)),
            (reach_step _ (MouseEnter mode session message)), Hr. }
    assert (preloads r' = preloads r) as Hpre.
    { subst r'. simpl.
      destruct Hwf as (Href & Hlen & Hnone & Hdone).
      pose proof (clearHoverTimeout_nil r Href) as Hclear.
      unfold handleMouseEnter.
      destruct (isSingle mode), (sessionUser session) as [s|],
        (hasPrefetched r) eqn:Hp;
        try (rewrite advance_nil by (simpl; by apply Hnone); done).
      rewrite Hclear. simpl.
      erewrite advance_one by reflexivity. simpl.
      unfold isDue. simpl.
      destruct (Nat.leb_spec (now r + HOVER_DELAY) (now r + d)); [lia|done]. }
    split; [done|]. split; [done|].
    intros d'. by rewrite (advance_nil d' r' Ht).
  - intros Hp s message d es Hs Hd Hes.
    rewrite (enter_starts_timer r s message Hwf Hs Hp).
    erewrite advance_one by reflexivity. simpl.
    unfold isDue. simpl.
    destruct (Nat.leb_spec (now r + HOVER_DELAY) (now r + d)); [|lia].
    unfold onTimeout. simpl.
    rewrite prefetched_run; [done| |done|done].
    pose proof (reach_step _ (Advance d)
                 (reach_step _ (MouseEnter single (Some s) message) Hr)) as Hreach.
    simpl in Hreach.
    rewrite (enter_starts_timer r s message Hwf Hs Hp) in Hreach.
    erewrite advance_one in Hreach by reflexivity. simpl in Hreach.
    unfold isDue in Hreach. simpl in Hreach.
    destruct (Nat.leb_spec (now r + HOVER_DELAY) (now r + d)); [|lia].
    apply Hreach.
Qed.

End Hover.

(** * Further properties of the code *)

(** ** More on row clicks *)

Section MoreClicks.

Variable items : list InitialThread.
Variable message : InitialThread.

Lemma click_keeps_flags (w : World) :
  let w' := exec (MailList.click items message) w in
  massSelectMode w' = massSelectMode w /\
  rangeSelectMode w' = rangeSelectMode w /\
  selectAllBelowMode w' = selectAllBelowMode w /\
  trace w' = trace w.
Proof.
  simpl. rewrite exec_click. unfold exec.
  destruct (MailList.selectMode w); simpl.
  - done.
  - destruct (_ && _); done.
  - destruct (_ || _); done.
  - destruct (negb _); done.
Qed.

Lemma click_keeps_mode (w : World) :
  MailList.selectMode (exec (MailList.click items message) w) = MailList.selectMode w.
Proof.
  destruct (click_keeps_flags w) as (Hm & Hr & Ha & _).
  unfold MailList.selectMode. by rewrite Hm, Hr, Ha.
Qed.

Lemma filter_other_id (x : string) (l : list string) :
  x ∉ l -> List.filter (fun i => negb (String.eqb i x)) l = l.
Proof.
  induction l as [|y l IH]; intros Hx; [done|]. simpl.
  destruct (String.eqb_spec y x) as [->|_]; simpl.
  - exfalso. apply Hx. by left.
  - f_equal. apply IH. intros H. apply Hx. by right.
Qed.

Lemma elem_of_filter_other (x y : string) (l : list string) :
  y ∈ List.filter (fun i => negb (String.eqb i x)) l <-> y ∈ l /\ y <> x.
Proof.
  rewrite !list_elem_of_In, filter_In, negb_true_iff.
  destruct (String.eqb_spec y x); split; intros [? ?]; split; congruence.
Qed.

Lemma mass_click (w : World) :
  MailList.selectMode w = mass ->
  mailAtom (exec (MailList.click items message) w) =
  mkMail (selected (mailAtom w))
         (if Js.includes (bulkSelected (mailAtom w)) (id message)
          then List.filter (fun i => negb (String.eqb i (id message)))
                           (bulkSelected (mailAtom w))
          else bulkSelected (mailAtom w) ++ [id message]).
Proof. intros Hmode. by rewrite exec_click, Hmode. Qed.

(** X1. A click in [selectAllBelow] mode on the row at index [i] makes
    [bulkSelected] the ids from [i] to the end of the loaded sequence and
    leaves [selected] alone. *)
Theorem select_all_below_takes_rest (w : World) (i : nat) :
  MailList.selectMode w = selectAllBelow ->
  occursAt (map id items) (id message) i ->
  mailAtom (exec (MailList.click items message) w)
  = mkMail (selected (mailAtom w)) (drop i (map id items)).
Proof.
  intros Hmode Hi. rewrite exec_click, Hmode. simpl.
  pose proof (occursAt_lt _ _ _ Hi) as Hlt.
  apply indexOf_occursAt in Hi. rewrite Hi.
  destruct (Z.eqb_spec (Z.of_nat i) (-1)); [lia|]. simpl.
  unfold Js.sliceFrom. rewrite slice_take_drop by lia.
  rewrite take_ge; [done|]. rewrite length_drop. lia.
Qed.

(** X2. A click in [mass] mode toggles the clicked id and nothing else: the id
    is selected afterwards exactly when it was not before, every other id
    keeps its membership, and [selected] is untouched. *)
Theorem mass_click_toggles_membership (w : World) :
  MailList.selectMode w = mass ->
  let before := bulkSelected (mailAtom w) in
  let after := bulkSelected (mailAtom (exec (MailList.click items message) w)) in
  (id message ∈ after <-> id message ∉ before) /\
  (forall x, x <> id message -> (x ∈ after <-> x ∈ before)) /\
  selected (mailAtom (exec (MailList.click items message) w)) = selected (mailAtom w).
Proof.
  intros Hmode before after. subst before after.
  rewrite (mass_click w Hmode). simpl.
  destruct (Js.includes _ _) eqn:Hin.
  - apply includes_elem_of in Hin. split; [|split; [|done]].
    + split.
      * intros H. apply elem_of_filter_other in H as [_ H]. done.
      * intros H. done.
    + intros x Hx. split.
      * intros H. by apply elem_of_filter_other in H as [H _].
      * intros H. by apply elem_of_filter_other.
  - assert (id message ∉ bulkSelected (mailAtom w)) as Hout.
    { intros H. apply includes_elem_of in H. congruence. }
    split; [|split; [|done]].
    + split; [done|]. intros _. apply elem_of_app. right. by left.
    + intros x Hx. split.
      * intros H. apply elem_of_app in H as [H|H]; [done|].
        apply list_elem_of_singleton in H. done.
      * intros H. apply elem_of_app. by left.
Qed.

(** X3. Toggling a row that was not selected and toggling it again restores
    the selection exactly, and a toggle never introduces a duplicate. *)
Theorem mass_click_twice_restores (w : World) :
  MailList.selectMode w = mass ->
  (id message ∉ bulkSelected (mailAtom w) ->
   mailAtom (exec (MailList.click items message)
                  (exec (MailList.click items message) w))
   = mailAtom w) /\
  (NoDup (bulkSelected (mailAtom w)) ->
   NoDup (bulkSelected (mailAtom (exec (MailList.click items message) w)))).
Proof.
  intros Hmode. split.
  - intros Hout.
    assert (MailList.selectMode (exec (MailList.click items message) w) = mass)
      as Hmode' by (by rewrite click_keeps_mode).
    rewrite (mass_click _ Hmode'), (mass_click w Hmode).
    assert (Js.includes (bulkSelected (mailAtom w)) (id message) = false) as Hin.
    { destruct (Js.includes _ _) eqn:E; [|done].
      apply includes_elem_of in E. done. }
    rewrite Hin. simpl.
    assert (Js.includes (bulkSelected (mailAtom w) ++ [id message]) (id message) = true)
      as ->.
    { apply includes_elem_of, elem_of_app. right. by left. }
    rewrite List.filter_app, (filter_other_id _ _ Hout). simpl.
    rewrite String.eqb_refl. simpl. rewrite app_nil_r. by destruct (mailAtom w).
  - intros Hnd. rewrite (mass_click w Hmode). simpl.
    destruct (Js.includes _ _) eqn:Hin.
    + apply NoDup_ListNoDup, List.NoDup_filter, NoDup_ListNoDup, Hnd.
    + apply NoDup_app. split; [done|]. split; [|apply NoDup_singleton].
      intros x Hx Hx'. apply list_elem_of_singleton in Hx'. subst x.
      apply includes_elem_of in Hx. congruence.
Qed.

(** X4. After a range click the last entry of [bulkSelected] is the id at the
    larger of the two indices, so the next range click is anchored at the
    lower end of the range, whichever row was clicked. *)
Theorem range_click_moves_anchor_down (w : World) (a b : nat) (next : InitialThread) :
  MailList.selectMode w = range ->
  occursAt (map id items) (rangeAnchor (mailAtom w) message) a ->
  occursAt (map id items) (id message) b ->
  Some (rangeAnchor (mailAtom (exec (MailList.click items message) w)) next)
  = map id items !! Nat.max a b.
Proof.
  intros Hmode Ha Hb.
  rewrite (range_click_found items message w a b Hmode Ha Hb). simpl.
  pose proof (occursAt_lt _ _ _ Ha). pose proof (occursAt_lt _ _ _ Hb).
  unfold rangeAnchor. simpl. rewrite last_lookup, slice_length by lia.
  rewrite slice_lookup by lia.
  replace (Nat.min a b + Nat.pred (Nat.max a b + 1 - Nat.min a b))%nat
    with (Nat.max a b) by lia.
  destruct (map id items !! Nat.max a b) eqn:E; [done|].
  apply lookup_ge_None in E. lia.
Qed.

(** X5. The loaded rows a range click selects do not depend on the direction:
    anchor at one row and click on the other, or the reverse, select the
    same ids. *)
Theorem range_click_is_symmetric (other : InitialThread) (w1 w2 : World) (a b : nat) :
  MailList.selectMode w1 = range -> MailList.selectMode w2 = range ->
  rangeAnchor (mailAtom w1) message = id other ->
  rangeAnchor (mailAtom w2) other = id message ->
  occursAt (map id items) (id other) a ->
  occursAt (map id items) (id message) b ->
  bulkSelected (mailAtom (exec (MailList.click items message) w1))
  = bulkSelected (mailAtom (exec (MailList.click items other) w2)).
Proof.
  intros Hm1 Hm2 H1 H2 Ha Hb.
  rewrite (range_click_found items message w1 a b Hm1) by (by rewrite ?H1).
  rewrite (range_click_found items other w2 b a Hm2) by (by rewrite ?H2).
  simpl. by rewrite Nat.min_comm, Nat.max_comm.
Qed.

(** X6. A click never changes the selection mode and makes no call outside the
    component. *)
Theorem click_stays_inside (w : World) :
  MailList.selectMode (exec (MailList.click items message) w) = MailList.selectMode w /\
  emitted (MailList.click items message) w = [].
Proof.
  split; [apply click_keeps_mode|].
  apply emitted_nil. apply (click_keeps_flags w).
Qed.

(** X7. Outside [single] mode a row click is the selection click and nothing
    more: no mark-as-read request goes out, read or unread. *)
Theorem bulk_click_never_marks_read (w : World) (res : Outcome) (mutateOk : bool) :
  MailList.selectMode w <> single ->
  exec (rowClick items message w res mutateOk) w
  = exec (MailList.click items message) w.
Proof.
  intros Hmode. rewrite exec_click.
  unfold rowClick, Thread.handleMailClick, Thread.handleMailClick_start, exec, bind.
  destruct (MailList.selectMode w); try done; simpl.
  - by destruct (_ && _).
  - by destruct (negb _).
Qed.

End MoreClicks.

(** ** Select-all and the mode keys *)

Section Commands.

(** X8. The select-all command toggles: with anything bulk-selected it clears
    the selection; with nothing selected and rows loaded it selects every
    loaded id, reports their number, and a second run clears again; with
    nothing loaded it changes nothing and says so. *)
Theorem select_all_toggles (items : list InitialThread) (w : World) :
  let run := fun w0 => MailList.selectAll items (mailAtom w0) in
  (bulkSelected (mailAtom w) <> [] ->
   mailAtom (exec (run w) w) = mkMail (selected (mailAtom w)) [] /\
   emitted (run w) w = [Toast success "Deselected all emails"]) /\
  (bulkSelected (mailAtom w) = [] -> items <> [] ->
   mailAtom (exec (run w) w) = mkMail (selected (mailAtom w)) (map id items) /\
   emitted (run w) w
   = [Toast success ("Selected " +:+ pretty (length items) +:+ " emails")] /\
   bulkSelected (mailAtom (exec (run (exec (run w) w)) (exec (run w) w))) = []) /\
  (bulkSelected (mailAtom w) = [] -> items = [] ->
   mailAtom (exec (run w) w) = mailAtom w /\
   emitted (run w) w = [Toast info "No emails to select"]).
Proof.
  intros run. subst run. simpl. unfold MailList.selectAll.
  destruct w as [[sel bulk] fm fr fa tr]. simpl.
  repeat split.
  - destruct bulk; done.
  - destruct bulk; [done|]. by apply emitted_app.
  - subst bulk. destruct items; done.
  - subst bulk. destruct items as [|m ms]; [done|].
    apply emitted_app. unfold bind. simpl. by rewrite length_map.
  - subst bulk. destruct items; done.
  - subst bulk items. done.
  - subst bulk items. by apply emitted_app.
Qed.

(** X9. The mode a hotkey sets does not depend on the mode before it: Control
    and Meta give [mass], Shift gives [range], Alt+Shift gives
    [selectAllBelow], and the read-state and select-all hotkeys give
    [single]. *)
Theorem hotkey_sets_mode (w : World) (mail : MailState) (items : list InitialThread) :
  MailList.selectMode (exec MailList.hotkey_Control w) = mass /\
  MailList.selectMode (exec MailList.hotkey_Meta w) = mass /\
  MailList.selectMode (exec MailList.hotkey_Shift w) = range /\
  MailList.selectMode (exec MailList.hotkey_Alt_Shift w) = selectAllBelow /\
  MailList.selectMode (exec (MailList.hotkey_Meta_Shift_u_start mail) w) = single /\
  MailList.selectMode (exec (MailList.hotkey_Control_Shift_u_start mail) w) = single /\
  MailList.selectMode (exec (MailList.hotkey_Meta_Shift_i_start mail) w) = single /\
  MailList.selectMode (exec (MailList.hotkey_Control_Shift_i_start mail) w) = single /\
  MailList.selectMode (exec (MailList.hotkey_selectAll items mail) w) = single.
Proof.
  repeat split; try done.
  unfold exec, MailList.hotkey_selectAll, MailList.selectAll, bind. simpl.
  destruct (0 <? length (bulkSelected mail))%nat; [done|].
  destruct (0 <? length items)%nat; done.
Qed.

(** X10. Releasing a key other than Control, Meta, Shift and Alt changes
    nothing. *)
Theorem other_key_release_is_noop (w : World) (key : string) :
  key <> "Control" -> key <> "Meta" -> key <> "Shift" -> key <> "Alt" ->
  exec (MailList.handleKeyUp key) w = w.
Proof.
  intros Hc Hm Hs Ha. unfold exec, MailList.handleKeyUp, bind.
  apply String.eqb_neq in Hc, Hm, Hs, Ha. rewrite Hc, Hm, Hs, Ha.
  by destruct w.
Qed.

End Commands.

(** ** More on hover prefetch *)

Section MoreHover.

Import Thread.

Lemma step_within_budget (r : Row) (e : Event) :
  wf r -> keepsId e = true ->
  (length (preloads (step r e)) + budget (step r e) <= length (preloads r) + budget r)%nat /\
  preloads r `prefix_of` preloads (step r e).
Proof.
  intros (Href & Hlen & Hout & Hdone) Hk. unfold budget.
  destruct e as [mode session message| |d| |]; simpl; try done.
  - unfold handleMouseEnter.
    destruct (isSingle mode), (sessionUser session) as [s|],
      (hasPrefetched r) eqn:Hp; simpl; rewrite ?Hp; done.
  - destruct (timers_nil_or_one r Hlen) as [Hn|[t Ht]].
    + by rewrite (advance_nil d r Hn).
    + rewrite (advance_one d r t Ht).
      destruct (hasPrefetched r) eqn:Hp.
      { specialize (Hdone eq_refl). congruence. }
      destruct (isDue (now r + d) t); simpl; [|done].
      unfold onTimeout. simpl. destruct (isHovering r); simpl.
      * split; [rewrite length_app; simpl; lia | by apply prefix_app_r].
      * done.
Qed.

(** X11. Between two changes of its id a row issues at most one prefetch,
    whatever the pointer does and however long it stays, and what was
    issued before stays issued. *)
Theorem at_most_one_prefetch_per_id (es : list Event) (r : Row) :
  Thread.reachable r ->
  Forall (fun e => keepsId e = true) es ->
  (length (preloads (run es r)) <= length (preloads r) + 1)%nat /\
  preloads r `prefix_of` preloads (run es r).
Proof.
  intros Hr Hes.
  assert ((length (preloads (run es r)) + budget (run es r)
           <= length (preloads r) + budget r)%nat /\
          preloads r `prefix_of` preloads (run es r)) as [Hb Hp].
  { revert r Hr. induction Hes as [|e es He Hes IH]; intros r Hr; [done|].
    simpl.
    destruct (step_within_budget r e (reachable_wf r Hr) He) as [Hb Hp].
    destruct (IH (step r e) (reach_step r e Hr)) as [Hb' Hp'].
    split; [lia | by etrans]. }
  split; [|done]. unfold budget in Hb.
  destruct (hasPrefetched r), (hasPrefetched (run es r)); lia.
Qed.

(** X12. A pending timer exists only while the pointer is over a row not yet
    prefetched; there is never more than one, and [hoverTimeoutRef] holds
    its handle. *)
Theorem pending_timer_is_tracked (r : Row) :
  Thread.reachable r ->
  (length (timers r) <= 1)%nat /\
  forall t, t ∈ timers r ->
    hoverTimeoutRef r = Some (handle t) /\
    isHovering r = true /\ hasPrefetched r = false.
Proof.
  intros Hr. destruct (reachable_wf r Hr) as (Href & Hlen & Hout & Hdone).
  split; [done|]. intros t Ht. split.
  - rewrite Forall_forall in Href. by apply Href.
  - split.
    + destruct (isHovering r); [done|]. rewrite Hout in Ht by done.
      by apply not_elem_of_nil in Ht.
    + destruct (hasPrefetched r); [|done]. rewrite Hdone in Ht by done.
      by apply not_elem_of_nil in Ht.
Qed.

(** X13. Entering a row in a bulk mode, or without a user identity, starts
    nothing: however long the pointer stays, no prefetch is issued. *)
Theorem no_prefetch_outside_single (r : Row) (mode : MailSelectMode)
    (session : option Session) (message : InitialThread) (d : nat) :
  Thread.reachable r -> isHovering r = false ->
  mode <> single \/ sessionUser session = None ->
  preloads (advance d (handleMouseEnter mode session message r)) = preloads r.
Proof.
  intros Hr Hout Hno.
  destruct (reachable_wf r Hr) as (_ & _ & Hnone & _).
  assert (handleMouseEnter mode session message r =
          mkRow (now r) true (hasPrefetched r) (hoverTimeoutRef r)
                (nextHandle r) (timers r) (preloads r)) as ->.
  { unfold handleMouseEnter. destruct Hno as [Hm| ->].
    - destruct mode; try done; by destruct (sessionUser session).
    - by destruct (isSingle mode). }
  rewrite advance_nil; [done|]. simpl. by apply Hnone.
Qed.

(** X14. Unmounting the row cancels what is pending: no prefetch is issued
    afterwards, however much time passes. *)
Theorem unmount_cancels_prefetch (r : Row) (d : nat) :
  Thread.reachable r ->
  timers (unmount r) = [] /\
  preloads (advance d (unmount r)) = preloads r.
Proof.
  intros Hr. destruct (reachable_wf r Hr) as (Href & _).
  assert (timers (unmount r) = []) as Ht
    by (simpl; by apply clearHoverTimeout_nil).
  split; [done|]. by rewrite (advance_nil d _ Ht).
Qed.

(** X15. After the row's id has changed, a hover of 1000ms or more in [single]
    mode with a user identity prefetches again, for the row as it is now. *)
Theorem id_change_rearms_prefetch (r : Row) (s : Session)
    (message : InitialThread) (d : nat) :
  Thread.reachable r -> userId s <> "" -> (HOVER_DELAY <= d)%nat ->
  preloads (advance d (handleMouseEnter single (Some s) message (messageIdChanged r)))
  = preloads r ++ [mkPreload (userId s) (selectionKey message) (connectionId s)].
Proof.
  intros Hr Hs Hd.
  pose proof (reachable_wf _ (reach_step r MessageIdChanged Hr)) as Hwf.
  simpl in Hwf.
  rewrite (enter_starts_timer _ s message Hwf Hs eq_refl).
  erewrite advance_one by reflexivity. simpl.
  unfold isDue. simpl.
  destruct (Nat.leb_spec (now r + HOVER_DELAY) (now r + d)); [done|lia].
Qed.

(** X16. The timer keeps the row content it was started for. When the row's id
    changes while the timer is pending, the prefetch that fires is for the
    old content, the row is marked as prefetched, and hovering issues
    nothing for the new content until the id changes again. *)
Theorem pending_timer_prefetches_old_row (r : Row) (s : Session)
    (old : InitialThread) (d : nat) (es : list Event) :
  Thread.reachable r -> hasPrefetched r = false ->
  userId s <> "" -> (HOVER_DELAY <= d)%nat ->
  Forall (fun e => keepsId e = true) es ->
  preloads (run es (advance d (messageIdChanged
                                 (handleMouseEnter single (Some s) old r))))
  = preloads r ++ [mkPreload (userId s) (selectionKey old) (connectionId s)].
Proof.
  intros Hr Hp Hs Hd Hes.
  pose proof (reachable_wf r Hr) as Hwf.
  pose proof (reach_step _ (Advance d)
               (reach_step _ MessageIdChanged
                  (reach_step _ (MouseEnter single (Some s) old) Hr))) as Hreach.
  simpl in Hreach.
  rewrite (enter_starts_timer r s old Hwf Hs Hp) in *.
  unfold messageIdChanged in *. simpl in *.
  erewrite advance_one in * by reflexivity. simpl in *.
  unfold isDue in *. simpl in *.
  destruct (Nat.leb_spec (now r + HOVER_DELAY) (now r + d)); [|lia].
  unfold onTimeout in *. simpl in *.
  by rewrite (prefetched_run es _ Hreach eq_refl Hes).
Qed.

End MoreHover.

(** ** The typing animation *)

Section Typing.

Import StreamingText.

Lemma get_in_range (s : string) (n : nat) :
  (n < String.length s)%nat -> exists c, String.get n s = Some c.
Proof.
  revert n. induction s as [|a s IH]; intros n Hn; simpl in *; [lia|].
  destruct n as [|n]; [by exists a|]. apply IH. lia.
Qed.

Lemma substring_snoc (s : string) (n : nat) (c : Ascii.ascii) :
  String.get n s = Some c ->
  String.substring 0 (S n) s = String.substring 0 n s +:+ String c EmptyString.
Proof.
  revert n. induction s as [|a s IH]; intros n Hget; [by destruct n|].
  destruct n as [|n]; simpl in *.
  - injection Hget as ->. by destruct s.
  - by rewrite (IH n Hget).
Qed.

Lemma substring_all (s : string) : String.substring 0 (String.length s) s = s.
Proof. induction s as [|a s IH]; simpl; [done | by rewrite IH]. Qed.

Lemma ticks_typing (text : string) (n : nat) :
  (n <= String.length text)%nat ->
  ticks text n = mkState n (String.substring 0 n text) false true.
Proof.
  induction n as [|n IH]; intros Hn.
  - unfold ticks. simpl. by destruct text.
  - unfold ticks in *. simpl. rewrite IH by lia. unfold tick. simpl.
    destruct (Nat.ltb_spec n (String.length text)); [|lia].
    destruct (get_in_range text n) as [c Hc]; [lia|].
    by rewrite Hc, (substring_snoc text n c Hc).
Qed.

Lemma ticks_finished (text : string) (k : nat) :
  ticks text (S (String.length text + k)) = mkState (String.length text) text true false.
Proof.
  induction k as [|k IH].
  - rewrite Nat.add_0_r. unfold ticks. simpl.
    fold (ticks text (String.length text)).
    rewrite ticks_typing by lia. unfold tick. simpl.
    rewrite Nat.ltb_irrefl. by rewrite substring_all.
  - replace (S (String.length text + S k)) with (S (S (String.length text + k))) by lia.
    unfold ticks in *. simpl in *. by rewrite IH.
Qed.

(** X17. The animation shows the first [n] characters after [n] runs of the
    interval, up to the whole text; the run after that marks it complete and
    clears the interval, and nothing changes from then on. *)
Theorem typing_reaches_text (text : string) (n : nat) :
  ((n <= String.length text)%nat ->
   ticks text n = mkState n (String.substring 0 n text) false true) /\
  ((String.length text < n)%nat ->
   ticks text n = mkState (String.length text) text true false).
Proof.
  split; [apply ticks_typing|]. intros Hn.
  replace n with (S (String.length text + (n - S (String.length text)))) by lia.
  apply ticks_finished.
Qed.

End Typing.

(** ** File names *)

Section FileNames.

Import Utils.

Lemma lastIndexOf_range (l : jsString) (c : Ascii.ascii) :
  -1 <= lastIndexOf l c < Z.of_nat (length l).
Proof.
  induction l as [|y l IH]; simpl; [lia|].
  destruct (Z.eqb_spec (lastIndexOf l c) (-1)); [|lia].
  destruct (Ascii.eqb y c); lia.
Qed.

Lemma lastIndexOf_absent (l : jsString) (c : Ascii.ascii) :
  c ∉ l -> lastIndexOf l c = -1.
Proof.
  induction l as [|y l IH]; intros Hc; simpl; [done|].
  rewrite IH by (intros H; apply Hc; by right). simpl.
  destruct (Ascii.eqb_spec y c) as [->|_]; [|done].
  exfalso. apply Hc. by left.
Qed.

Lemma lastIndexOf_last (base ext : jsString) (c : Ascii.ascii) :
  c ∉ ext -> lastIndexOf (base ++ c :: ext) c = Z.of_nat (length base).
Proof.
  intros Hc. induction base as [|y base IH]; simpl.
  - rewrite (lastIndexOf_absent ext c Hc). simpl. by rewrite Ascii.eqb_refl.
  - rewrite IH. destruct (Z.eqb_spec (Z.of_nat (length base)) (-1)); lia.
Qed.

Lemma slice_prefix_length (l : jsString) (m : Z) :
  0 <= m <= Z.of_nat (length l) ->
  Js.slice l 0 m = take (Z.to_nat m) l /\ Z.of_nat (length (Js.slice l 0 m)) = m.
Proof.
  intros Hm.
  assert (Js.slice l 0 m = take (Z.to_nat m) l) as ->.
  { unfold Js.slice, Js.relIndex.
    destruct (Z.ltb_spec m 0); [lia|]. simpl.
    rewrite (Z.min_l 0), (Z.min_l m), Z.sub_0_r by lia. done. }
  split; [done|]. rewrite length_take. lia.
Qed.

Lemma sliceFrom_drop (l : jsString) (i : nat) :
  (i <= length l)%nat -> Js.sliceFrom l (Z.of_nat i) = drop i l.
Proof.
  intros Hi. unfold Js.sliceFrom. rewrite slice_take_drop by lia.
  rewrite take_ge; [done|]. rewrite length_drop. lia.
Qed.

(** X18. With room for the five characters it sets aside, the result is never
    longer than [maxLength] plus the three dots. *)
Theorem truncateFileName_bound (name : jsString) (maxLength : Z) :
  5 <= maxLength ->
  Z.of_nat (length (truncateFileName name maxLength)) <= maxLength + 3.
Proof.
  intros Hmax. unfold truncateFileName.
  destruct (Z.leb_spec (Z.of_nat (length name)) maxLength) as [|Hlong]; [lia|].
  pose proof (lastIndexOf_range name "."%char) as Hr.
  destruct (Z.eqb_spec (lastIndexOf name ".") (-1)) as [|Hfound]; simpl.
  - rewrite length_app.
    destruct (slice_prefix_length name maxLength) as [_ Hl]; [lia|].
    simpl. lia.
  - destruct (Z.leb_spec (Z.of_nat (length name) - lastIndexOf name ".") 5)
      as [Hext|Hext].
    + rewrite !length_app.
      destruct (slice_prefix_length name (maxLength - 5)) as [_ Hl]; [lia|].
      replace (lastIndexOf name ".")
        with (Z.of_nat (Z.to_nat (lastIndexOf name "."))) by lia.
      rewrite sliceFrom_drop by lia. cbn [length]. rewrite length_drop. lia.
    + rewrite length_app.
      destruct (slice_prefix_length name maxLength) as [_ Hl]; [lia|].
      simpl. lia.
Qed.

(** X19. A name too long for [maxLength] whose extension has at most four
    characters keeps its extension: the result is the first
    [maxLength - 5] characters, three dots, and the extension with its
    dot. *)
Theorem truncateFileName_keeps_extension (base ext : jsString) (maxLength : Z) :
  "."%char ∉ ext -> (length ext <= 4)%nat ->
  5 <= maxLength < Z.of_nat (length (base ++ "."%char :: ext)) ->
  truncateFileName (base ++ "."%char :: ext) maxLength
  = take (Z.to_nat (maxLength - 5)) (base ++ "."%char :: ext)
    ++ dots ++ "."%char :: ext.
Proof.
  intros Hdot Hext Hmax. unfold truncateFileName.
  destruct (Z.leb_spec (Z.of_nat (length (base ++ "."%char :: ext))) maxLength);
    [lia|].
  rewrite (lastIndexOf_last base ext _ Hdot).
  rewrite length_app in *. simpl in *.
  destruct (Z.eqb_spec (Z.of_nat (length base)) (-1)); [lia|].
  destruct (Z.leb_spec
              (Z.of_nat (length base + S (length ext)) - Z.of_nat (length base)) 5);
    [|lia].
  simpl.
  destruct (slice_prefix_length (base ++ "."%char :: ext) (maxLength - 5)) as [-> _].
  { rewrite length_app. simpl. lia. }
  rewrite sliceFrom_drop by (rewrite length_app; simpl; lia).
  by rewrite drop_app_length.
Qed.

End FileNames.

(** ** The sign-up form *)

Section SignUp.

Lemma onSubmit_counts (e : string) (res : Outcome) (st : Hero.State) :
  Hero.isSubmitting (Hero.onSubmit e res st) = false /\
  length (List.filter isToast (Hero.calls (Hero.onSubmit e res st)))
  = S (length (List.filter isToast (Hero.calls st))) /\
  posted (Hero.calls (Hero.onSubmit e res st)) = posted (Hero.calls st) ++ [e].
Proof.
  unfold Hero.onSubmit, Hero.onSubmit_start, posted.
  destruct res as [ok|]; simpl;
    rewrite <- !app_assoc, !List.filter_app, !omap_app, !length_app; simpl;
    (split; [done|]); (split; [lia|]); done.
Qed.

(** X20. Over any run of submissions, each one posts its address once and
    raises exactly one notice, and after the last one the form is no longer
    submitting, whether the requests succeeded or failed. *)
Theorem submitAll_one_notice_each (subs : list (string * Outcome)) (st : Hero.State) :
  length (List.filter isToast (Hero.calls (submitAll subs st)))
  = (length (List.filter isToast (Hero.calls st)) + length subs)%nat /\
  posted (Hero.calls (submitAll subs st)) = posted (Hero.calls st) ++ map fst subs /\
  (subs <> [] -> Hero.isSubmitting (submitAll subs st) = false).
Proof.
  revert st. induction subs as [|[e res] subs IH] using rev_ind; intros st.
  - simpl. split; [lia|]. split; [by rewrite app_nil_r | done].
  - unfold submitAll in *. rewrite fold_left_app. simpl.
    destruct (IH st) as (Ht & Hp & _).
    destruct (onSubmit_counts e res
                (fold_left (fun acc p => Hero.onSubmit (fst p) (snd p) acc) subs st))
      as (Hs' & Ht' & Hp').
    split; [rewrite Ht', Ht, length_app; simpl; lia|].
    split; [|done].
    by rewrite Hp', Hp, map_app, app_assoc.
Qed.

End SignUp.

(** ** The session plugin *)

Section Sessions.

Import Auth.

Lemma find_app_none {A} (f : A -> bool) (l : list A) (x : A) :
  List.find f l = None -> f x = true -> List.find f (l ++ [x]) = Some x.
Proof.
  induction l as [|y l IH]; simpl; intros Hn Hx; [by rewrite Hx|].
  destruct (f y); [done|]. by apply IH.
Qed.

Lemma find_some_of_elem {A} (f : A -> bool) (l : list A) (x : A) :
  x ∈ l -> f x = true -> exists y, List.find f l = Some y.
Proof.
  intros Hx Hf. destruct (List.find f l) as [y|] eqn:E; [by exists y|].
  apply list_elem_of_In in Hx.
  pose proof (List.find_none f l E x Hx). congruence.
Qed.

(** X21. The plugin never touches users or accounts and never removes a
    connection. It adds at most one, with the fresh id and owned by the
    user, and none at all for a user who already has a connection or has no
    account. *)
Theorem customSession_adds_at_most_one (env : Env) (u : SessionUser) (db : Db) :
  let db' := snd (customSession env u db) in
  users db' = users db /\ accounts db' = accounts db /\
  (connections db' = connections db \/
   exists a, a ∈ accounts db /\ accountUserId a = userId u /\
             connections db' = connections db ++ [newConnection env u a]) /\
  ((exists c, c ∈ connections db /\ connUserId c = userId u) \/
   (forall a, a ∈ accounts db -> accountUserId a <> userId u) ->
   db' = db).
Proof.
  simpl. unfold customSession.
  destruct (activeConnectionId u db) as [c|]; simpl.
  { repeat split; try done. by left. }
  destruct (firstConnection u db) as [c|] eqn:Hc; simpl.
  { repeat split; try done. by left. }
  destruct (firstAccount u db) as [a|] eqn:Ha; simpl.
  - split; [done|]. split; [done|]. split.
    + right. exists a. unfold firstAccount in Ha.
      apply List.find_some in Ha as [Hin Heq].
      apply String.eqb_eq in Heq. rewrite <- list_elem_of_In in Hin. done.
    + intros [(c & Hin & Hown)|Hnone]; exfalso.
      * destruct (find_some_of_elem
                    (fun r => String.eqb (connUserId r) (userId u))
                    (connections db) c Hin) as [y Hy];
          [by apply String.eqb_eq|].
        unfold firstConnection in Hc. congruence.
      * unfold firstAccount in Ha. apply List.find_some in Ha as [Hin Heq].
        apply String.eqb_eq in Heq. rewrite <- list_elem_of_In in Hin.
        by apply (Hnone a).
  - repeat split; try done. by left.
Qed.

(** X22. Calling the plugin again for the same user changes nothing more: one
    call brings the database to where every later call leaves it. *)
Theorem customSession_settles (env env' : Env) (u : SessionUser) (db : Db) :
  snd (customSession env' u (snd (customSession env u db)))
  = snd (customSession env u db).
Proof.
  unfold customSession at 2 3.
  destruct (activeConnectionId u db) as [c|] eqn:Hact; simpl.
  { unfold customSession. by rewrite Hact. }
  destruct (firstConnection u db) as [c|] eqn:Hc; simpl.
  { unfold customSession. by rewrite Hact, Hc. }
  destruct (firstAccount u db) as [a|] eqn:Ha; simpl.
  - unfold customSession.
    assert (activeConnectionId u
              (mkDb (users db) (accounts db)
                    (connections db ++ [newConnection env u a])) = None) as ->
      by exact Hact.
    unfold firstConnection in *. simpl.
    rewrite (find_app_none _ _ _ Hc); [done|]. simpl. apply String.eqb_refl.
  - unfold customSession. by rewrite Hact, Hc, Ha.
Qed.

(** X23. A user with an account but no connection gets one created, yet that
    call reports no connection id; the next call reports the id just
    created. *)
Theorem customSession_reports_new_connection_late
    (env env' : Env) (u : SessionUser) (db : Db) (a : AccountRow) :
  activeConnectionId u db = None ->
  firstConnection u db = None ->
  firstAccount u db = Some a ->
  fst (customSession env u db) = None /\
  fst (customSession env' u (snd (customSession env u db))) = Some (uuid env).
Proof.
  intros Hact Hc Ha. unfold customSession at 1 3. rewrite Hact, Hc, Ha. simpl.
  split; [done|]. unfold customSession.
  assert (activeConnectionId u
            (mkDb (users db) (accounts db)
                  (connections db ++ [newConnection env u a])) = None) as ->
    by exact Hact.
  unfold firstConnection in *. simpl.
  rewrite (find_app_none _ _ _ Hc); [done|]. simpl. apply String.eqb_refl.
Qed.

End Sessions.

(** ** Closing the thread pane *)

Section Closing.

(** X24. Escape closes the open thread whatever [onClose] does, any other key
    does nothing, and with no [onClose] the bulk selection, the mode and the
    trace stay as they are. *)
Theorem escape_closes_thread (onClose : option (M unit)) (w : World) :
  selected (mailAtom (exec (ThreadDisplay.handleEsc onClose "Escape") w)) = None /\
  (forall key, key <> "Escape" -> exec (ThreadDisplay.handleEsc onClose key) w = w) /\
  exec (ThreadDisplay.handleEsc None "Escape") w
  = mkWorld (mkMail None (bulkSelected (mailAtom w))) (massSelectMode w)
            (rangeSelectMode w) (selectAllBelowMode w) (trace w).
Proof.
  split; [|split].
  - unfold exec, ThreadDisplay.handleEsc, ThreadDisplay.handleClose, bind. simpl.
    destruct onClose as [f|]; simpl; [by destruct (f w)|done].
  - intros key Hkey. unfold exec, ThreadDisplay.handleEsc.
    apply String.eqb_neq in Hkey. by rewrite Hkey.
  - done.
Qed.

(** X25. After the pane is closed, a click in [single] mode opens the clicked
    row: it can never fall into the deselect branch. *)
Theorem click_after_close_opens (onClose : option (M unit))
    (items : list InitialThread) (message : InitialThread) (w : World) :
  MailList.selectMode (exec (ThreadDisplay.handleClose onClose) w) = single ->
  mailAtom (exec (MailList.click items message)
                 (exec (ThreadDisplay.handleClose onClose) w))
  = mkMail (Some (selectionKey message)) [].
Proof.
  intros Hmode. rewrite exec_click, Hmode.
  assert (selected (mailAtom (exec (ThreadDisplay.handleClose onClose) w)) = None)
    as Hsel.
  { unfold exec, ThreadDisplay.handleClose, bind.
    destruct onClose as [f|]; simpl; [by destruct (f w)|done]. }
  unfold exec at 1. simpl.
  unfold MailList.selectedIsThreadId, MailList.selectedIsId. by rewrite Hsel.
Qed.

End Closing.

(** * Instances *)

(** ** The claims at concrete inputs *)

Lemma range_click_selects_slice_witness :
  MailList.selectMode rangeWorld = range /\
  occursAt (map id inbox) (rangeAnchor (mailAtom rangeWorld) rowB) 3 /\
  occursAt (map id inbox) (id rowB) 1 /\
  let result := bulkSelected (mailAtom (exec (MailList.click inbox rowB) rangeWorld)) in
  length result = (Nat.max 3 1 - Nat.min 3 1 + 1)%nat /\
  forall k, (k <= Nat.max 3 1 - Nat.min 3 1)%nat ->
    result !! k = map id inbox !! (Nat.min 3 1 + k)%nat.
Proof.
  assert (occursAt (map id inbox) (rangeAnchor (mailAtom rangeWorld) rowB) 3) as Ha.
  { split; [reflexivity|].
    intros [|[|[|j]]] Hj; simpl; [discriminate | discriminate | discriminate | lia]. }
  assert (occursAt (map id inbox) (id rowB) 1) as Hb.
  { split; [reflexivity|]. intros [|j] Hj; simpl; [discriminate | lia]. }
  split; [reflexivity|]. split; [exact Ha|]. split; [exact Hb|].
  exact (range_click_selects_slice inbox rowB rangeWorld 3 1 eq_refl Ha Hb).
Defined.

Lemma unloaded_click_keeps_selection_witness :
  mailAtom (exec (MailList.click inbox rowZ) rangeWorld) = mailAtom rangeWorld /\
  mailAtom (exec (MailList.click inbox rowZ) belowWorld) = mailAtom belowWorld.
Proof.
  assert (id rowZ ∉ map id inbox) as Hz.
  { intros H. simpl in H.
    repeat (apply elem_of_cons in H as [H|H]; [discriminate|]).
    by apply not_elem_of_nil in H. }
  split.
  - apply (proj1 (unloaded_click_keeps_selection inbox rowZ rangeWorld));
      [reflexivity | right; exact Hz].
  - apply (proj2 (unloaded_click_keeps_selection inbox rowZ belowWorld));
      [reflexivity | exact Hz].
Defined.

Lemma single_click_toggles_witness :
  mailAtom (exec (MailList.click inbox rowC)
                 (mkWorld (mkMail (Some "tc") ["a"]) false false false []))
  = mkMail None [] /\
  mailAtom (exec (MailList.click inbox rowC) initialWorld)
  = mkMail (Some "tc") [].
Proof.
  split.
  - apply (proj1 (single_click_toggles inbox rowC
                    (mkWorld (mkMail (Some "tc") ["a"]) false false false [])
                    eq_refl)).
    right. exists "tc". split; reflexivity.
  - apply (proj2 (single_click_toggles inbox rowC initialWorld eq_refl)).
    intros [H|(t & _ & H)]; simpl in H; discriminate.
Defined.

Lemma bulk_ops_keep_selected_witness :
  selected (mailAtom (runOps [MassToggle inbox rowA; RangeSelect inbox rowC;
                              SelectAllBelow inbox rowB; SelectAllCommand inbox]
                             belowWorld))
  = Some "a".
Proof.
  apply (proj2 bulk_ops_keep_selected
           [MassToggle inbox rowA; RangeSelect inbox rowC;
            SelectAllBelow inbox rowB; SelectAllCommand inbox] belowWorld).
  repeat constructor.
Defined.

Lemma release_or_blur_resets_mode_witness :
  (reachableWorld (exec MailList.hotkey_Shift initialWorld) /\
   releases (MailList.selectMode (exec MailList.hotkey_Shift initialWorld)) "Shift" /\
   MailList.selectMode
     (exec (MailList.handleKeyUp "Shift") (exec MailList.hotkey_Shift initialWorld))
   = single) /\
  (reachableWorld (exec MailList.hotkey_Alt_Shift initialWorld) /\
   MailList.selectMode (exec MailList.hotkey_Alt_Shift initialWorld) = selectAllBelow /\
   MailList.selectMode
     (exec (MailList.handleKeyUp "Shift") (exec MailList.hotkey_Alt_Shift initialWorld))
   = selectAllBelow).
Proof.
  assert (reachableWorld (exec MailList.hotkey_Shift initialWorld)) as Hr
    by (apply reach_handler; constructor).
  assert (reachableWorld (exec MailList.hotkey_Alt_Shift initialWorld)) as Hr'
    by (apply reach_handler; constructor).
  split.
  - split; [exact Hr|]. split; [reflexivity|].
    exact (proj1 release_or_blur_resets_mode _ "Shift" Hr eq_refl).
  - split; [exact Hr'|]. split; [reflexivity|].
    exact (proj1 (proj2 release_or_blur_resets_mode) _ Hr' eq_refl).
Defined.


Lemma hover_prefetch_witness :
  (let r' := Thread.handleMouseLeave
               (Thread.advance 999
                  (Thread.handleMouseEnter single (Some alice) rowC Thread.mount)) in
   Thread.preloads r' = [] /\ Thread.timers r' = [] /\
   forall d', Thread.preloads (Thread.advance d' r') = []) /\
  Thread.preloads
    (Thread.run [Thread.MouseLeave; Thread.MouseEnter single (Some alice) rowC;
                 Thread.Advance 5000]
       (Thread.advance 1000
          (Thread.handleMouseEnter single (Some alice) rowC Thread.mount)))
  = [Thread.mkPreload "u1" "tc" (Some "conn1")].
Proof.
  pose proof (hover_prefetch Thread.mount Thread.reach_mount) as [Hcancel Hfire].
  split.
  - apply (Hcancel eq_refl single (Some alice) rowC 999%nat).
    unfold Thread.HOVER_DELAY. lia.
  - apply (Hfire eq_refl alice rowC 1000%nat).
    + discriminate.
    + unfold Thread.HOVER_DELAY. lia.
    + repeat constructor.
Defined.

Lemma scroll_loads_more_witness :
  LoadMore ∈ emitted (MailList.handleScroll false false None nearBottom) initialWorld.
Proof.
  apply (proj2 (proj1 (scroll_loads_more false false None nearBottom initialWorld))).
  split; [reflexivity|]. split; reflexivity.
Defined.

(** ** Where the code departs from the spec's wording *)

(** Against C2: open a thread, then toggle another row in [mass] mode.
    [bulkSelected] is non-empty and [selected] is still set. *)
Lemma selected_survives_mass_toggle :
  mailAtom (runOps [SingleClick inbox rowB; MassToggle inbox rowA] initialWorld)
  = mkMail (Some "b") ["a"].
Proof. reflexivity. Qed.

(** Against C4: with conversation ["m1"] open, click the row whose own id
    is ["m1"] and whose selection key is ["t2"]. The key differs from
    [selected], yet the click clears the selection instead of opening
    ["t2"]. *)
Lemma single_click_on_matching_id :
  let w := exec (MailList.click [rowT; rowM] rowT) initialWorld in
  MailList.selectMode w = single /\
  selected (mailAtom w) = Some "m1" /\
  selectionKey rowM = "t2" /\
  selected (mailAtom w) <> Some (selectionKey rowM) /\
  mailAtom (exec (MailList.click [rowT; rowM] rowM) w) = mkMail None [] /\
  mailAtom (exec (MailList.click [rowT; rowM] rowM) w)
  <> mkMail (Some (selectionKey rowM)) [].
Proof. repeat split; discriminate. Qed.


(** ** Scenarios of the spec, run on the code *)

Example click_selected_deselects :
  mailAtom (exec (MailList.click inbox (mkThread "t1" None false))
                 (mkWorld (mkMail (Some "t1") []) false false false []))
  = mkMail None [].
Proof. reflexivity. Qed.

Example select_all_then_again :
  let w1 := exec (MailList.hotkey_selectAll [rowA; rowB; rowC] (mailAtom initialWorld))
                 initialWorld in
  let w2 := exec (MailList.hotkey_selectAll [rowA; rowB; rowC] (mailAtom w1)) w1 in
  bulkSelected (mailAtom w1) = ["a"; "b"; "c"] /\
  trace w1 = [PreventDefault; Toast success "Selected 3 emails"] /\
  bulkSelected (mailAtom w2) = [] /\
  trace w2 = [PreventDefault; Toast success "Selected 3 emails";
              PreventDefault; Toast success "Deselected all emails"].
Proof. repeat split. Qed.

Example select_all_on_empty :
  exec (MailList.selectAll [] (mailAtom initialWorld)) initialWorld
  = mkWorld (mkMail None []) false false false [Toast info "No emails to select"].
Proof. reflexivity. Qed.

Example select_all_below :
  bulkSelected (mailAtom (exec (MailList.click inbox rowB) belowWorld))
  = ["b"; "c"; "d"].
Proof. reflexivity. Qed.

Example mass_toggle_twice :
  let w := mkWorld (mkMail None ["b"]) true false false [] in
  bulkSelected (mailAtom (exec (MailList.click inbox rowA) w)) = ["b"; "a"] /\
  bulkSelected (mailAtom (exec (MailList.click inbox rowB) w)) = [].
Proof. split; reflexivity. Qed.

Example slice_negative : Js.slice ["a"; "b"; "c"; "d"] (-3) (-1) = ["b"; "c"].
Proof. reflexivity. Qed.

Example indexOf_first : Js.indexOf ["a"; "b"; "c"; "b"] "b" = 1.
Proof. reflexivity. Qed.

Example new_connection_expiry :
  Auth.expiresAt (Auth.newConnection env1 bob bobAccount) = 3601000.
Proof. reflexivity. Qed.

Example hover_in_mass_mode :
  Thread.preloads
    (Thread.advance 5000 (Thread.handleMouseEnter mass (Some alice) rowC Thread.mount))
  = [].
Proof. reflexivity. Qed.

(** ** The further properties at concrete inputs *)

Lemma select_all_below_takes_rest_witness :
  mailAtom (exec (MailList.click inbox rowB) belowWorld)
  = mkMail (Some "a") ["b"; "c"; "d"].
Proof.
  apply (select_all_below_takes_rest inbox rowB belowWorld 1 eq_refl).
  split; [reflexivity|]. intros [|j] Hj; simpl; [discriminate | lia].
Defined.

Lemma mass_click_toggles_membership_witness :
  let before := bulkSelected (mailAtom massWorld) in
  let after := bulkSelected (mailAtom (exec (MailList.click inbox rowB) massWorld)) in
  (id rowB ∈ after <-> id rowB ∉ before) /\
  (forall x, x <> id rowB -> (x ∈ after <-> x ∈ before)) /\
  selected (mailAtom (exec (MailList.click inbox rowB) massWorld))
  = selected (mailAtom massWorld).
Proof. exact (mass_click_toggles_membership inbox rowB massWorld eq_refl). Defined.

Lemma mass_click_twice_restores_witness :
  mailAtom (exec (MailList.click inbox rowC) (exec (MailList.click inbox rowC) massWorld))
  = mailAtom massWorld /\
  NoDup (bulkSelected (mailAtom (exec (MailList.click inbox rowC) massWorld))).
Proof.
  destruct (mass_click_twice_restores inbox rowC massWorld eq_refl) as [Hback Hnd].
  split.
  - apply Hback. simpl. intros H.
    apply elem_of_cons in H as [H|H]; [discriminate|].
    by apply not_elem_of_nil in H.
  - apply Hnd. simpl. apply NoDup_singleton.
Defined.

Lemma range_click_moves_anchor_down_witness :
  Some (rangeAnchor (mailAtom (exec (MailList.click inbox rowB) rangeWorld)) rowA)
  = map id inbox !! Nat.max 3 1.
Proof.
  apply (range_click_moves_anchor_down inbox rowB rangeWorld 3 1 rowA eq_refl).
  - split; [reflexivity|].
    intros [|[|[|j]]] Hj; simpl; [discriminate | discriminate | discriminate | lia].
  - split; [reflexivity|]. intros [|j] Hj; simpl; [discriminate | lia].
Defined.

Lemma range_click_is_symmetric_witness :
  bulkSelected (mailAtom (exec (MailList.click inbox rowD) rangeWorld'))
  = bulkSelected (mailAtom (exec (MailList.click inbox rowB) rangeWorld)).
Proof.
  apply (range_click_is_symmetric inbox rowD rowB rangeWorld' rangeWorld 1 3);
    try reflexivity.
  - split; [reflexivity|]. intros [|j] Hj; simpl; [discriminate | lia].
  - split; [reflexivity|].
    intros [|[|[|j]]] Hj; simpl; [discriminate | discriminate | discriminate | lia].
Defined.

Lemma bulk_click_never_marks_read_witness :
  exec (rowClick inbox rowA massWorld (Resolved true) true) massWorld
  = exec (MailList.click inbox rowA) massWorld.
Proof.
  apply (bulk_click_never_marks_read inbox rowA massWorld (Resolved true) true).
  discriminate.
Defined.

Lemma select_all_toggles_witness :
  mailAtom (exec (MailList.selectAll inbox (mailAtom massWorld)) massWorld)
  = mkMail (Some "a") [] /\
  mailAtom (exec (MailList.selectAll inbox (mailAtom initialWorld)) initialWorld)
  = mkMail None ["a"; "b"; "c"; "d"] /\
  emitted (MailList.selectAll [] (mailAtom initialWorld)) initialWorld
  = [Toast info "No emails to select"].
Proof.
  split; [|split].
  - apply (proj1 (select_all_toggles inbox massWorld)). discriminate.
  - apply (proj1 (proj2 (select_all_toggles inbox initialWorld)));
      [reflexivity | discriminate].
  - apply (proj2 (proj2 (select_all_toggles [] initialWorld))); reflexivity.
Defined.

Lemma other_key_release_is_noop_witness :
  exec (MailList.handleKeyUp "a") massWorld = massWorld.
Proof.
  apply (other_key_release_is_noop massWorld "a"); discriminate.
Defined.

Lemma at_most_one_prefetch_per_id_witness :
  let es := [Thread.MouseEnter single (Some alice) rowC; Thread.Advance 1500;
             Thread.MouseLeave; Thread.MouseEnter single (Some alice) rowC;
             Thread.Advance 1500] in
  (length (Thread.preloads (Thread.run es Thread.mount))
   <= length (Thread.preloads Thread.mount) + 1)%nat /\
  Thread.preloads Thread.mount `prefix_of` Thread.preloads (Thread.run es Thread.mount).
Proof.
  apply (at_most_one_prefetch_per_id _ Thread.mount Thread.reach_mount).
  repeat constructor.
Defined.

Lemma pending_timer_is_tracked_witness :
  let r := Thread.step Thread.mount (Thread.MouseEnter single (Some alice) rowC) in
  (length (Thread.timers r) <= 1)%nat /\
  forall t, t ∈ Thread.timers r ->
    Thread.hoverTimeoutRef r = Some (Thread.handle t) /\
    Thread.isHovering r = true /\ Thread.hasPrefetched r = false.
Proof.
  exact (pending_timer_is_tracked _
           (Thread.reach_step Thread.mount
              (Thread.MouseEnter single (Some alice) rowC) Thread.reach_mount)).
Defined.

Lemma no_prefetch_outside_single_witness :
  Thread.preloads
    (Thread.advance 4000 (Thread.handleMouseEnter range (Some alice) rowC Thread.mount))
  = [] /\
  Thread.preloads
    (Thread.advance 4000 (Thread.handleMouseEnter single None rowC Thread.mount))
  = [].
Proof.
  split.
  - apply (no_prefetch_outside_single Thread.mount range (Some alice) rowC 4000
             Thread.reach_mount eq_refl).
    left. discriminate.
  - apply (no_prefetch_outside_single Thread.mount single None rowC 4000
             Thread.reach_mount eq_refl).
    right. reflexivity.
Defined.

Lemma unmount_cancels_prefetch_witness :
  let r := Thread.step Thread.mount (Thread.MouseEnter single (Some alice) rowC) in
  Thread.timers (Thread.unmount r) = [] /\
  Thread.preloads (Thread.advance 5000 (Thread.unmount r)) = Thread.preloads r.
Proof.
  exact (unmount_cancels_prefetch _ 5000
           (Thread.reach_step Thread.mount
              (Thread.MouseEnter single (Some alice) rowC) Thread.reach_mount)).
Defined.

Lemma id_change_rearms_prefetch_witness :
  Thread.preloads
    (Thread.advance 1000
       (Thread.handleMouseEnter single (Some alice) rowA
          (Thread.messageIdChanged Thread.mount)))
  = [Thread.mkPreload "u1" "a" (Some "conn1")].
Proof.
  apply (id_change_rearms_prefetch Thread.mount alice rowA 1000 Thread.reach_mount).
  - discriminate.
  - unfold Thread.HOVER_DELAY. lia.
Defined.

Lemma pending_timer_prefetches_old_row_witness :
  Thread.preloads
    (Thread.run [Thread.MouseLeave; Thread.MouseEnter single (Some alice) rowA;
                 Thread.Advance 5000]
       (Thread.advance 1000
          (Thread.messageIdChanged
             (Thread.handleMouseEnter single (Some alice) rowC Thread.mount))))
  = [Thread.mkPreload "u1" "tc" (Some "conn1")].
Proof.
  apply (pending_timer_prefetches_old_row Thread.mount alice rowC 1000 _
           Thread.reach_mount eq_refl).
  - discriminate.
  - unfold Thread.HOVER_DELAY. lia.
  - repeat constructor.
Defined.

Lemma typing_reaches_text_witness :
  StreamingText.ticks "Hi" 1 = StreamingText.mkState 1 "H" false true /\
  StreamingText.ticks "Hi" 7 = StreamingText.mkState 2 "Hi" true false.
Proof.
  split.
  - apply (proj1 (typing_reaches_text "Hi" 1)). simpl. lia.
  - apply (proj2 (typing_reaches_text "Hi" 7)). simpl. lia.
Defined.

Lemma truncateFileName_bound_witness :
  Z.of_nat (length (Utils.truncateFileName_default (reportName ++ "."%char :: pdf)))
  <= 15 + 3.
Proof.
  apply (truncateFileName_bound (reportName ++ "."%char :: pdf) 15). lia.
Defined.

Lemma truncateFileName_keeps_extension_witness :
  Utils.truncateFileName (reportName ++ "."%char :: pdf) 15
  = take (Z.to_nat (15 - 5)) (reportName ++ "."%char :: pdf)
    ++ Utils.dots ++ "."%char :: pdf.
Proof.
  apply (truncateFileName_keeps_extension reportName pdf 15).
  - intros H. simpl in H.
    repeat (apply elem_of_cons in H as [H|H]; [discriminate|]).
    by apply not_elem_of_nil in H.
  - simpl. lia.
  - simpl. lia.
Defined.

Lemma submitAll_one_notice_each_witness :
  Hero.isSubmitting
    (submitAll [("a@example.com", Rejected); ("b@example.com", Resolved true)]
               (Hero.mkState false "" []))
  = false.
Proof.
  apply (proj2 (proj2 (submitAll_one_notice_each
                         [("a@example.com", Rejected); ("b@example.com", Resolved true)]
                         (Hero.mkState false "" [])))).
  discriminate.
Defined.

Lemma customSession_adds_at_most_one_witness :
  snd (Auth.customSession env2 bob (snd (Auth.customSession env1 bob freshDb)))
  = snd (Auth.customSession env1 bob freshDb).
Proof.
  apply (proj2 (proj2 (proj2 (customSession_adds_at_most_one env2 bob
                                (snd (Auth.customSession env1 bob freshDb)))))).
  left. exists (Auth.newConnection env1 bob bobAccount).
  split; [by left | reflexivity].
Defined.

Lemma customSession_reports_new_connection_late_witness :
  fst (Auth.customSession env1 bob freshDb) = None /\
  fst (Auth.customSession env2 bob (snd (Auth.customSession env1 bob freshDb)))
  = Some "c-1".
Proof.
  exact (customSession_reports_new_connection_late env1 env2 bob freshDb bobAccount
           eq_refl eq_refl eq_refl).
Defined.

Lemma escape_closes_thread_witness :
  exec (ThreadDisplay.handleEsc None "Enter") massWorld = massWorld.
Proof.
  apply (proj1 (proj2 (escape_closes_thread None massWorld))). discriminate.
Defined.

Lemma click_after_close_opens_witness :
  mailAtom (exec (MailList.click inbox rowA)
                 (exec (ThreadDisplay.handleClose None)
                       (mkWorld (mkMail (Some "a") []) false false false [])))
  = mkMail (Some "a") [].
Proof.
  exact (click_after_close_opens None inbox rowA
           (mkWorld (mkMail (Some "a") []) false false false []) eq_refl).
Defined.
